(** * SMS bridge: a shallow embedding of the device-side send paths

    Sources embedded here:
    - [mobile/react-native/SMSBridgeApp.tsx]: the bridge application
      ([sendSMS], [updateMessageStatus]) and the [SMSService] class
      ([sendSMS], [cleanPhoneNumber], [isValidPhoneNumber],
      [splitLongMessage], [sendLongSMS]);
    - the WebUSB modem adapter ([WebUSBSMS.sendSMS], [sendATCommand]);
    - the campaign builder ([generatePreview]);
    - [mobile/react-native/src/services/NetworkService.ts] ([send]).

    JavaScript strings are modelled as [string]; a character stands for a
    UTF-16 code unit below 256.  Asynchronous calls into the platform (the
    native SMS module, the USB endpoint, [fetch], the clock) are oracles on
    an abstract world that is threaded through the code. *)

From Stdlib Require Import List Bool Arith ZArith Lia.
From Stdlib Require Import Ascii String DecimalString.
Import ListNotations.

Open Scope list_scope.
Open Scope string_scope.
Open Scope nat_scope.

(** ** JavaScript string primitives *)

Module Js.

Fixpoint take (n : nat) (s : string) : string :=
  match n, s with
  | S n', String c s' => String c (take n' s')
  | _, _ => EmptyString
  end.

Fixpoint drop (n : nat) (s : string) : string :=
  match n, s with
  | S n', String _ s' => drop n' s'
  | _, _ => s
  end.

(** [s.substring(a, b)]: both indices are clamped to the length and
    swapped when [a > b]. *)
Definition substring (s : string) (a b : nat) : string :=
  let a' := Nat.min a (length s) in
  let b' := Nat.min b (length s) in
  let from := Nat.min a' b' in
  let to := Nat.max a' b' in
  take (to - from) (drop from s).

(** [s.substring(a)] *)
Definition substringFrom (s : string) (a : nat) : string :=
  substring s a (length s).

(** [s.startsWith(p)] *)
Fixpoint startsWith (s p : string) {struct p} : bool :=
  match p, s with
  | EmptyString, _ => true
  | String _ _, EmptyString => false
  | String a p', String b s' => Ascii.eqb a b && startsWith s' p'
  end.

(** [s.includes(p)] *)
Fixpoint includes (s p : string) : bool :=
  startsWith s p ||
  match s with
  | EmptyString => false
  | String _ s' => includes s' p
  end.

Definition isDigit (c : ascii) : bool :=
  let n := nat_of_ascii c in (48 <=? n) && (n <=? 57).

(** WhiteSpace and LineTerminator code units below 256: TAB, LF, VT, FF,
    CR, SP and NBSP. *)
Definition isWhiteSpace (c : ascii) : bool :=
  let n := nat_of_ascii c in
  ((9 <=? n) && (n <=? 13)) || (n =? 32) || (n =? 160).

Fixpoint filter (f : ascii -> bool) (s : string) : string :=
  match s with
  | EmptyString => EmptyString
  | String c s' => if f c then String c (filter f s') else filter f s'
  end.

Fixpoint forallb (f : ascii -> bool) (s : string) : bool :=
  match s with
  | EmptyString => true
  | String c s' => f c && forallb f s'
  end.

Fixpoint trimStart (s : string) : string :=
  match s with
  | EmptyString => EmptyString
  | String c s' => if isWhiteSpace c then trimStart s' else s
  end.

(** Drops the white space at the end: a character is kept when something
    that is not white space follows it or it is not white space itself. *)
Fixpoint trimEnd (s : string) : string :=
  match s with
  | EmptyString => EmptyString
  | String c s' =>
      match trimEnd s' with
      | EmptyString => if isWhiteSpace c then EmptyString else String c EmptyString
      | t => String c t
      end
  end.

(** [s.trim()] *)
Definition trim (s : string) : string := trimEnd (trimStart s).

(** [String(n)] for a non-negative integer. *)
Definition ofNat (n : nat) : string := NilEmpty.string_of_uint (Nat.to_uint n).

(** [parts.join('')] *)
Definition join (parts : list string) : string :=
  fold_right append EmptyString parts.

(** JavaScript truthiness of a string. *)
Definition truthy (s : string) : bool :=
  match s with EmptyString => false | _ => true end.

(** [s.repeat(n)] *)
Fixpoint repeat (s : string) (n : nat) : string :=
  match n with
  | 0 => EmptyString
  | S n' => s ++ repeat s n'
  end.

(** What a [throw] or a rejected promise carries into a [catch]: an error
    object with its [name] and [message] (an absent [message] reads as
    the empty string, which is as falsy), or a bare string. *)
Inductive Thrown : Type :=
| ErrorObject (name message : string)
| StringValue (s : string).

(** [new Error(message)] *)
Definition newError (message : string) : Thrown := ErrorObject "Error" message.

(** [`${e}`] and [e.toString()]: for an error object this is
    [Error.prototype.toString]. *)
Definition toString (e : Thrown) : string :=
  match e with
  | ErrorObject name message =>
      if negb (truthy name) then message
      else if negb (truthy message) then name
      else name ++ ": " ++ message
  | StringValue s => s
  end.

(** How a call ends: it returns a value or throws. *)
Inductive Completion (A : Type) : Type :=
| Returned (value : A)
| Threw (e : Thrown).
Arguments Returned {A}.
Arguments Threw {A}.

(** Regular expressions, as far as the sources use them: character classes,
    sequence, alternation and bounded repetition [r{lo,hi}].  A pattern is
    always used anchored ([^...$]), so matching is by derivatives. *)
Inductive Regex : Type :=
| ReNone
| ReEps
| ReClass (f : ascii -> bool)
| ReSeq (r1 r2 : Regex)
| ReAlt (r1 r2 : Regex).

Fixpoint rePower (r : Regex) (n : nat) : Regex :=
  match n with
  | 0 => ReEps
  | S n' => ReSeq r (rePower r n')
  end.

Fixpoint reUpTo (r : Regex) (n : nat) : Regex :=
  match n with
  | 0 => ReEps
  | S n' => ReAlt ReEps (ReSeq r (reUpTo r n'))
  end.

(** [r{lo,hi}] *)
Definition reRepeat (r : Regex) (lo hi : nat) : Regex :=
  ReSeq (rePower r lo) (reUpTo r (hi - lo)).

Fixpoint reNullable (r : Regex) : bool :=
  match r with
  | ReNone => false
  | ReEps => true
  | ReClass _ => false
  | ReSeq r1 r2 => reNullable r1 && reNullable r2
  | ReAlt r1 r2 => reNullable r1 || reNullable r2
  end.

Fixpoint reDerive (c : ascii) (r : Regex) : Regex :=
  match r with
  | ReNone => ReNone
  | ReEps => ReNone
  | ReClass f => if f c then ReEps else ReNone
  | ReSeq r1 r2 =>
      if reNullable r1
      then ReAlt (ReSeq (reDerive c r1) r2) (reDerive c r2)
      else ReSeq (reDerive c r1) r2
  | ReAlt r1 r2 => ReAlt (reDerive c r1) (reDerive c r2)
  end.

(** [/^r$/.test(s)] *)
Fixpoint reTest (r : Regex) (s : string) : bool :=
  match s with
  | EmptyString => reNullable r
  | String c s' => reTest (reDerive c r) s'
  end.

(** What it means for a string to match a pattern from end to end. *)
Inductive reMatches : Regex -> string -> Prop :=
| MatchEps : reMatches ReEps EmptyString
| MatchClass f c : f c = true -> reMatches (ReClass f) (String c EmptyString)
| MatchSeq r1 r2 s1 s2 :
    reMatches r1 s1 -> reMatches r2 s2 -> reMatches (ReSeq r1 r2) (s1 ++ s2)
| MatchAltL r1 r2 s : reMatches r1 s -> reMatches (ReAlt r1 r2) s
| MatchAltR r1 r2 s : reMatches r2 s -> reMatches (ReAlt r1 r2) s.

Lemma take_drop n s : take n s ++ drop n s = s.
Proof.
  revert s; induction n as [|n IH]; intros [|c s]; simpl; auto.
  now rewrite IH.
Qed.

Lemma length_take n s : length (take n s) = Nat.min n (length s).
Proof.
  revert s; induction n as [|n IH]; intros [|c s]; simpl; auto.
Qed.

Lemma length_drop n s : length (drop n s) = length s - n.
Proof.
  revert s; induction n as [|n IH]; intros [|c s]; simpl; auto.
Qed.

Lemma drop_drop n m s : drop n (drop m s) = drop (m + n) s.
Proof.
  revert s; induction m as [|m IH]; intros [|c s]; simpl; auto.
  now destruct n.
Qed.

Lemma drop_all n s : length s <= n -> drop n s = EmptyString.
Proof.
  revert s; induction n as [|n IH]; intros [|c s]; simpl; auto; try lia.
  intros H; apply IH; lia.
Qed.

Lemma take_all n s : length s <= n -> take n s = s.
Proof.
  revert s; induction n as [|n IH]; intros [|c s]; simpl; auto; try lia.
  intros H; rewrite IH; auto; lia.
Qed.

Lemma append_nil_r s : s ++ EmptyString = s.
Proof. induction s; simpl; congruence. Qed.

Lemma append_assoc (a b c : string) : (a ++ b) ++ c = a ++ (b ++ c).
Proof. induction a; simpl; congruence. Qed.

Lemma length_append (a b : string) : length (a ++ b) = length a + length b.
Proof. induction a; simpl; congruence. Qed.

Lemma join_app l1 l2 : join (l1 ++ l2) = join l1 ++ join l2.
Proof.
  induction l1 as [|x l1 IH]; simpl; auto.
  now rewrite IH, append_assoc.
Qed.

(** Numbers that hold an integer.  [toNumber n] is the double nearest to
    the integer [n], a tie going to the even significand: [n] itself up to
    2^53 in size, and beyond that a multiple of the spacing that the
    doubles have around [n].  (The largest double is below 2^1024; no sum
    made here comes near it.) *)
Definition toNumber (n : Z) : Z :=
  let size := Z.abs n in
  if (size <? 2 ^ 53)%Z then n
  else
    let spacing := (2 ^ (Z.log2 size - 52))%Z in
    let significand := (size / spacing)%Z in
    let rest := (size mod spacing)%Z in
    let up :=
      if (spacing <? 2 * rest)%Z || ((2 * rest =? spacing)%Z && Z.odd significand)
      then 1%Z else 0%Z in
    (Z.sgn n * ((significand + up) * spacing))%Z.

(** [x++] and [x--] on a number that holds the integer [x]: the new value
    of [x]. *)
Definition increment (x : Z) : Z := toNumber (x + 1).

Definition decrement (x : Z) : Z := toNumber (x - 1).

(** The integers on which the two are exact: from -2^53 to 2^53. *)
Definition exactInteger (x : Z) : Prop := (- 2 ^ 53 <= x <= 2 ^ 53)%Z.

Lemma toNumber_exact (n : Z) : exactInteger n -> toNumber n = n.
Proof.
  unfold exactInteger, toNumber. change (2 ^ 53)%Z with 9007199254740992%Z.
  intros Hn. destruct (Z.ltb_spec (Z.abs n) 9007199254740992) as [_|Hbig];
    [reflexivity|].
  assert (Hedge : n = 9007199254740992%Z \/ n = (- 9007199254740992)%Z) by lia.
  destruct Hedge as [-> | ->]; reflexivity.
Qed.

Lemma increment_exact (x : Z) :
  (- 2 ^ 53 <= x < 2 ^ 53)%Z -> increment x = (x + 1)%Z.
Proof.
  intros Hx. apply toNumber_exact. unfold exactInteger in *.
  change (2 ^ 53)%Z with 9007199254740992%Z in *. lia.
Qed.

Lemma decrement_exact (x : Z) :
  (- 2 ^ 53 < x <= 2 ^ 53)%Z -> decrement x = (x - 1)%Z.
Proof.
  intros Hx. apply toNumber_exact. unfold exactInteger in *.
  change (2 ^ 53)%Z with 9007199254740992%Z in *. lia.
Qed.

(** At 2^53 the increment is lost: 2^53 + 1 is no double, and the tie goes
    to 2^53. *)
Example increment_absorbed :
  increment (2 ^ 53) = (2 ^ 53)%Z /\ decrement (increment (2 ^ 53)) = (2 ^ 53 - 1)%Z.
Proof. split; reflexivity. Qed.

Example toNumber_ties_to_even :
  map toNumber [2 ^ 53 + 1; 2 ^ 53 + 3; 2 ^ 54 + 2; - 2 ^ 53 - 1]%Z
  = [2 ^ 53; 2 ^ 53 + 4; 2 ^ 54; - 2 ^ 53]%Z.
Proof. reflexivity. Qed.

(** A window that starts inside the string. *)
Lemma substring_window s i m :
  i <= length s -> substring s i (i + m) = take m (drop i s).
Proof.
  intros Hi. unfold substring.
  replace (Nat.min i (length s)) with i by lia.
  destruct (Nat.le_gt_cases (i + m) (length s)) as [H|H].
  - replace (Nat.min (i + m) (length s)) with (i + m) by lia.
    replace (Nat.min i (i + m)) with i by lia.
    replace (Nat.max i (i + m) - i) with m by lia.
    reflexivity.
  - replace (Nat.min (i + m) (length s)) with (length s) by lia.
    replace (Nat.min i (length s)) with i by lia.
    replace (Nat.max i (length s)) with (length s) by lia.
    rewrite !take_all; auto; rewrite length_drop; lia.
Qed.

Lemma length_substring_window s i m : length (substring s i (i + m)) <= m.
Proof.
  unfold substring. rewrite length_take. lia.
Qed.

End Js.


(** ** Facts about the string primitives: the matcher decides matching *)

Module JsFacts.
Import Js.

Example toString_error : Js.toString (Js.newError "No service") = "Error: No service".
Proof. reflexivity. Qed.

Example trim_both_ends : Js.trim "  on its way  " = "on its way".
Proof. reflexivity. Qed.

Lemma append_empty (a b : string) :
  a ++ b = EmptyString -> a = EmptyString /\ b = EmptyString.
Proof. destruct a; simpl; [auto|discriminate]. Qed.

Lemma reMatches_seq (r1 r2 : Regex) (s : string) :
  reMatches (ReSeq r1 r2) s ->
  exists s1 s2, s = s1 ++ s2 /\ reMatches r1 s1 /\ reMatches r2 s2.
Proof. intros H. inversion H; subst. eauto. Qed.

Lemma reNullable_spec (r : Regex) :
  reNullable r = true <-> reMatches r EmptyString.
Proof.
  induction r as [| |f|r1 IH1 r2 IH2|r1 IH1 r2 IH2]; simpl.
  - split; [discriminate|]. intros H; inversion H.
  - split; [constructor|reflexivity].
  - split; [discriminate|]. intros H; inversion H.
  - rewrite andb_true_iff, IH1, IH2. split.
    + intros [H1 H2]. change EmptyString with (EmptyString ++ EmptyString).
      now constructor.
    + intros H. apply reMatches_seq in H.
      destruct H as (s1 & s2 & Heq & H1 & H2). symmetry in Heq.
      apply append_empty in Heq. destruct Heq; subst. auto.
  - rewrite orb_true_iff, IH1, IH2. split.
    + intros [H|H]; [now apply MatchAltL|now apply MatchAltR].
    + intros H. inversion H; subst; auto.
Qed.

Lemma reDerive_spec (c : ascii) (r : Regex) (s : string) :
  reMatches (reDerive c r) s <-> reMatches r (String c s).
Proof.
  revert s.
  induction r as [| |f|r1 IH1 r2 IH2|r1 IH1 r2 IH2]; intros s; simpl.
  - split; intros H; inversion H.
  - split; intros H; inversion H.
  - destruct (f c) eqn:Hf; split; intros H; inversion H; subst.
    + now constructor.
    + constructor.
    + congruence.
  - assert (Hseq : reMatches (ReSeq (reDerive c r1) r2) s ->
                   reMatches (ReSeq r1 r2) (String c s)).
    { intros H. apply reMatches_seq in H.
      destruct H as (s1 & s2 & -> & H1 & H2). apply IH1 in H1.
      change (String c (s1 ++ s2)) with (String c s1 ++ s2). now constructor. }
    assert (Hback : reMatches (ReSeq r1 r2) (String c s) ->
                    reMatches (ReSeq (reDerive c r1) r2) s \/
                    (reMatches r1 EmptyString /\ reMatches r2 (String c s))).
    { intros H. apply reMatches_seq in H.
      destruct H as (s1 & s2 & Heq & H1 & H2).
      destruct s1 as [|a s1]; simpl in Heq.
      - right. subst s2. auto.
      - injection Heq as -> ->. left. constructor; [now apply IH1|exact H2]. }
    destruct (reNullable r1) eqn:Hnull.
    + split.
      * intros H. inversion H; subst; [now apply Hseq|].
        change (String c s) with (EmptyString ++ String c s). constructor.
        -- now apply reNullable_spec.
        -- now apply IH2.
      * intros H. destruct (Hback H) as [Hl|[_ Hr]].
        -- now apply MatchAltL.
        -- apply MatchAltR. now apply IH2.
    + split; [exact Hseq|].
      intros H. destruct (Hback H) as [Hl|[Hempty _]]; [exact Hl|].
      apply reNullable_spec in Hempty. congruence.
  - split; intros H; inversion H; subst.
    + apply MatchAltL. now apply IH1.
    + apply MatchAltR. now apply IH2.
    + apply MatchAltL. now apply IH1.
    + apply MatchAltR. now apply IH2.
Qed.

Lemma reTest_spec (r : Regex) (s : string) :
  reTest r s = true <-> reMatches r s.
Proof.
  revert r. induction s as [|c s IH]; intros r; simpl.
  - apply reNullable_spec.
  - rewrite IH. apply reDerive_spec.
Qed.

Lemma forallb_append (f : ascii -> bool) (a b : string) :
  forallb f (a ++ b) = forallb f a && forallb f b.
Proof.
  induction a as [|c a IH]; simpl; [reflexivity|].
  now rewrite IH, andb_assoc.
Qed.

Lemma forallb_take (f : ascii -> bool) (n : nat) (s : string) :
  forallb f s = true -> forallb f (take n s) = true.
Proof.
  revert s. induction n as [|n IH]; intros [|c s]; simpl; auto.
  intros H. apply andb_prop in H. destruct H as [Hc Hs].
  now rewrite Hc, IH.
Qed.

Lemma forallb_drop (f : ascii -> bool) (n : nat) (s : string) :
  forallb f s = true -> forallb f (drop n s) = true.
Proof.
  revert s. induction n as [|n IH]; intros [|c s]; simpl; auto.
  intros H. apply andb_prop in H. destruct H as [_ Hs]. auto.
Qed.

(** [c{n}] matches the runs of exactly [n] characters of the class. *)
Lemma rePower_class (f : ascii -> bool) (n : nat) (s : string) :
  reMatches (rePower (ReClass f) n) s <-> forallb f s = true /\ length s = n.
Proof.
  revert s. induction n as [|n IH]; intros s; simpl.
  - split.
    + intros H. inversion H. auto.
    + intros [_ Hlen]. destruct s; [constructor|discriminate].
  - split.
    + intros H. apply reMatches_seq in H.
      destruct H as (s1 & s2 & -> & H1 & H2).
      inversion H1; subst. apply IH in H2. destruct H2 as [Hall Hlen].
      simpl. rewrite Hall, Hlen. split; [|reflexivity].
      now rewrite andb_true_r.
    + intros [Hall Hlen]. destruct s as [|c s]; [discriminate|].
      simpl in Hall, Hlen. apply andb_prop in Hall. destruct Hall as [Hc Hs].
      change (String c s) with (String c EmptyString ++ s).
      constructor; [now constructor|]. apply IH. split; [exact Hs|lia].
Qed.

(** [c{0,n}] matches the runs of at most [n] characters of the class. *)
Lemma reUpTo_class (f : ascii -> bool) (n : nat) (s : string) :
  reMatches (reUpTo (ReClass f) n) s <-> forallb f s = true /\ length s <= n.
Proof.
  revert s. induction n as [|n IH]; intros s; simpl.
  - split.
    + intros H. inversion H. auto.
    + intros [_ Hlen]. destruct s; [constructor|simpl in Hlen; lia].
  - split.
    + intros H. inversion H as [| | |? ? ? H1|? ? ? H1]; subst.
      * inversion H1. simpl. split; [reflexivity|lia].
      * apply reMatches_seq in H1.
        destruct H1 as (s1 & s2 & -> & Hc & Hs).
        inversion Hc; subst. apply IH in Hs. destruct Hs as [Hall Hlen].
        simpl. rewrite Hall. split; [now rewrite andb_true_r|lia].
    + intros [Hall Hlen]. destruct s as [|c s].
      * apply MatchAltL. constructor.
      * simpl in Hall, Hlen. apply andb_prop in Hall. destruct Hall as [Hc Hs].
        apply MatchAltR.
        change (String c s) with (String c EmptyString ++ s).
        constructor; [now constructor|]. apply IH. split; [exact Hs|lia].
Qed.

(** [c{lo,hi}] matches the runs of [lo] to [hi] characters of the class. *)
Lemma reRepeat_class (f : ascii -> bool) (lo hi : nat) (s : string) :
  lo <= hi ->
  (reMatches (reRepeat (ReClass f) lo hi) s <->
   forallb f s = true /\ lo <= length s <= hi).
Proof.
  intros Hle. unfold reRepeat. split.
  - intros H. apply reMatches_seq in H.
    destruct H as (s1 & s2 & -> & H1 & H2).
    apply rePower_class in H1. apply reUpTo_class in H2.
    destruct H1 as [Hall1 Hlen1]. destruct H2 as [Hall2 Hlen2].
    rewrite forallb_append, Hall1, Hall2, length_append. split; [reflexivity|lia].
  - intros [Hall Hlen]. rewrite <- (take_drop lo s). constructor.
    + apply rePower_class. split; [now apply forallb_take|].
      rewrite length_take. lia.
    + apply reUpTo_class. split; [now apply forallb_drop|].
      rewrite length_drop. lia.
Qed.

End JsFacts.

(** ** [SMSService]: validation, splitting and sending on the phone *)

Module SMSService.

(** [interface SMSResult] *)
Record SMSResult : Type := mkSMSResult {
  success : bool;
  messageId : option string;
  error : option string
}.

(** The promise returned by [nativeModule.sendSMS]: resolved with a result
    object (its [messageId] property, when it has one) or rejected. *)
Inductive NativeOutcome : Type :=
| Resolved (messageId : option string)
| Rejected (e : Js.Thrown).

(** One call that reached the native module. *)
Record NativeCall : Type := mkNativeCall {
  number : string;
  text : string;
  outcome : NativeOutcome
}.

(** The platform under the service: [this.nativeModule] ([null] off
    Android), [Date.now()] and the timer. *)
Record Platform (World : Type) : Type := mkPlatform {
  nativeModule : option (string -> string -> World -> NativeOutcome * World);
  dateNow : World -> nat;
  setTimeout : nat -> World -> World
}.
Arguments nativeModule {World}.
Arguments dateNow {World}.
Arguments setTimeout {World}.

Record State (World : Type) : Type := mkState {
  world : World;
  calls : list NativeCall
}.
Arguments mkState {World}.
Arguments world {World}.
Arguments calls {World}.

Definition failure (reason : string) : SMSResult :=
  {| success := false; messageId := None; error := Some reason |}.

Definition sent (id : string) : SMSResult :=
  {| success := true; messageId := Some id; error := None |}.

Definition isPlus (c : ascii) : bool := Ascii.eqb c "+"%char.

(** [phoneNumber.replace(/[^\d+]/g, '')], then the leading [+] is put back. *)
Definition cleanPhoneNumber (phoneNumber : string) : string :=
  let cleaned := Js.filter (fun c => Js.isDigit c || isPlus c) phoneNumber in
  if Js.startsWith phoneNumber "+"
  then "+" ++ Js.substringFrom cleaned 1
  else cleaned.

(** [/^(\+\d{1,3}\d{4,14}|\d{4,15})$/] *)
Definition phoneRegex : Js.Regex :=
  Js.ReAlt
    (Js.ReSeq (Js.ReClass isPlus)
       (Js.ReSeq (Js.reRepeat (Js.ReClass Js.isDigit) 1 3)
                 (Js.reRepeat (Js.ReClass Js.isDigit) 4 14)))
    (Js.reRepeat (Js.ReClass Js.isDigit) 4 15).

Definition isValidPhoneNumber (phoneNumber : string) : bool :=
  Js.reTest phoneRegex phoneNumber.

(** The [catch] of [sendSMS]: [error.message], else the error itself when
    it is a string, else the fixed text. *)
Definition errorMessage (e : Js.Thrown) : string :=
  match e with
  | Js.ErrorObject _ m => if Js.truthy m then m else "Unknown error occurred"
  | Js.StringValue s => s
  end.

Section Service.

Variable World : Type.
Variable platform : Platform World.

Definition sendSMS (phoneNumber message : string) (st : State World)
  : SMSResult * State World :=
  match nativeModule platform with
  | None => (failure "SMS functionality not available on this platform", st)
  | Some native =>
      let cleanNumber := cleanPhoneNumber phoneNumber in
      if negb (isValidPhoneNumber cleanNumber)
      then (failure "Invalid phone number format", st)
      else if negb (Js.truthy message) || (length (Js.trim message) =? 0)
      then (failure "Message cannot be empty", st)
      else
        let '(out, w) := native cleanNumber (Js.trim message) (world st) in
        let st' :=
          mkState w (calls st ++ [mkNativeCall cleanNumber (Js.trim message) out]) in
        match out with
        | Resolved mid =>
            let fallback := "sms_" ++ Js.ofNat (dateNow platform w) in
            (sent (match mid with
                   | Some m => if Js.truthy m then m else fallback
                   | None => fallback
                   end), st')
        | Rejected e => (failure (errorMessage e), st')
        end
  end.

(** The [for] loop of [splitLongMessage]; [None] when the fuel runs out. *)
Fixpoint splitLoop (fuel : nat) (message : string) (maxLength i : nat)
  (parts : list string) : option (list string) :=
  if i <? length message then
    match fuel with
    | 0 => None
    | S fuel' =>
        splitLoop fuel' message maxLength (i + maxLength)
          (parts ++ [Js.substring message i (i + maxLength)])
    end
  else Some parts.

Definition splitLongMessage (message : string) (maxLength : nat)
  : option (list string) :=
  if length message <=? maxLength then Some [message]
  else splitLoop (length message) message maxLength 0 [].

(** [`(${i + 1}/${parts.length}) ${part}`] when there are several parts. *)
Definition partMessage (total i : nat) (part : string) : string :=
  if 1 <? total
  then "(" ++ Js.ofNat (i + 1) ++ "/" ++ Js.ofNat total ++ ") " ++ part
  else part.

(** The [for] loop of [sendLongSMS], from index [i] over the parts left. *)
Fixpoint sendParts (phoneNumber : string) (total i : nat) (parts : list string)
  (results : list SMSResult) (st : State World) : list SMSResult * State World :=
  match parts with
  | [] => (results, st)
  | part :: rest =>
      let '(result, st1) := sendSMS phoneNumber (partMessage total i part) st in
      let st2 :=
        if i <? total - 1
        then mkState (setTimeout platform 1000 (world st1)) (calls st1)
        else st1 in
      sendParts phoneNumber total (i + 1) rest (results ++ [result]) st2
  end.

Definition sendLongSMS (phoneNumber message : string) (st : State World)
  : option (list SMSResult * State World) :=
  match splitLongMessage message 160 with
  | Some parts => Some (sendParts phoneNumber (List.length parts) 0 parts [] st)
  | None => None
  end.

End Service.

End SMSService.

(** ** Facts about [SMSService.splitLongMessage] *)

Module SplitFacts.
Import SMSService.

Definition fits (maxLength : nat) (part : string) : Prop :=
  length part <= maxLength.

(** The loop, entered at index [i] with [parts] collected so far, ends when
    the fuel covers what is left of the message, and appends the windows
    that cover the rest of the message. *)
Lemma splitLoop_total (message : string) (maxLength : nat) :
  0 < maxLength ->
  forall fuel i parts,
    length message - i <= fuel ->
    exists result,
      splitLoop fuel message maxLength i parts = Some result /\
      Js.join result = Js.join parts ++ Js.drop i message /\
      (Forall (fits maxLength) parts -> Forall (fits maxLength) result).
Proof.
  intros Hmax. induction fuel as [|fuel IH]; intros i parts Hfuel; simpl.
  - destruct (Nat.ltb_spec i (length message)) as [Hlt|Hge]; [lia|].
    exists parts. rewrite Js.drop_all, Js.append_nil_r by lia. auto.
  - destruct (Nat.ltb_spec i (length message)) as [Hlt|Hge].
    + destruct (IH (i + maxLength)
                  (parts ++ [Js.substring message i (i + maxLength)])%list)
        as (result & Hrun & Hjoin & Hfit); [lia|].
      exists result. split; [exact Hrun|]. split.
      * rewrite Hjoin, Js.join_app. simpl.
        rewrite Js.append_nil_r, Js.append_assoc.
        rewrite Js.substring_window by lia.
        rewrite <- Js.drop_drop, Js.take_drop. reflexivity.
      * intros Hparts. apply Hfit. apply Forall_app. split; [exact Hparts|].
        constructor; [|constructor]. apply Js.length_substring_window.
    + exists parts. rewrite Js.drop_all, Js.append_nil_r by lia. auto.
Qed.

(** C5. For a positive segment size (160 by default) [splitLongMessage]
    returns parts that are each at most the segment size and whose
    concatenation, in order, is the message; a message that fits in one
    segment comes back as the one-element list holding it unchanged. *)
Theorem splitLongMessage_partition (message : string) (maxLength : nat) :
  0 < maxLength ->
  exists parts,
    splitLongMessage message maxLength = Some parts /\
    Forall (fits maxLength) parts /\
    Js.join parts = message /\
    (length message <= maxLength -> parts = [message]).
Proof.
  intros Hmax. unfold splitLongMessage.
  destruct (Nat.leb_spec (length message) maxLength) as [Hle|Hgt].
  - exists [message]. repeat split.
    + constructor; [exact Hle|constructor].
    + simpl. apply Js.append_nil_r.
  - destruct (splitLoop_total message maxLength Hmax (length message) 0 [])
      as (result & Hrun & Hjoin & Hfit); [lia|].
    exists result. repeat split; auto.
    intros Hle. lia.
Qed.

Lemma splitLongMessage_partition_witness :
  0 < 160 /\
  exists parts,
    splitLongMessage "Your order has shipped" 160 = Some parts /\
    Forall (fits 160) parts /\
    Js.join parts = "Your order has shipped" /\
    (length "Your order has shipped" <= 160 -> parts = ["Your order has shipped"]).
Proof.
  split; [lia|].
  apply (splitLongMessage_partition "Your order has shipped" 160); lia.
Defined.

(** With the default segment size the split always returns. *)
Lemma splitLongMessage_default_total (message : string) :
  exists parts, splitLongMessage message 160 = Some parts.
Proof.
  destruct (splitLoop_total message 160 ltac:(lia) (length message) 0 [])
    as (result & Hrun & _); [lia|].
  unfold splitLongMessage. destruct (length message <=? 160); eauto.
Qed.

(** A message longer than one segment is cut into at least two parts. *)
Lemma splitLongMessage_long (message : string) :
  160 < length message ->
  exists parts,
    splitLongMessage message 160 = Some parts /\ 1 < List.length parts.
Proof.
  intros Hlong. unfold splitLongMessage.
  destruct (Nat.leb_spec (length message) 160) as [Hle|_]; [lia|].
  destruct (splitLoop_total message 160 ltac:(lia) (length message) 0 [])
    as (result & Hrun & Hjoin & Hfit); [lia|].
  exists result. split; [exact Hrun|].
  simpl in Hjoin. specialize (Hfit (Forall_nil _)).
  destruct result as [|p [|q rest]]; simpl in *; try lia.
  - subst message. simpl in Hlong. lia.
  - rewrite Js.append_nil_r in Hjoin. subst message.
    inversion Hfit as [|? ? Hp _]. unfold fits in Hp. lia.
Qed.

End SplitFacts.

(** ** Facts about [SMSService.sendSMS] and [SMSService.sendLongSMS] *)

Module SendFacts.
Import SMSService.

(** The native module took the message: its promise resolved. *)
Definition accepted (c : NativeCall) : bool :=
  match outcome c with
  | Resolved _ => true
  | Rejected _ => false
  end.

(** The texts [sendLongSMS] builds for the parts from index [i] on. *)
Fixpoint labels (total i : nat) (parts : list string) : list string :=
  match parts with
  | [] => []
  | part :: rest => partMessage total i part :: labels total (i + 1) rest
  end.

Example cleanPhoneNumber_formatted :
  cleanPhoneNumber "+1 (555) 123-4567" = "+15551234567".
Proof. reflexivity. Qed.

Example isValidPhoneNumber_samples :
  map isValidPhoneNumber ["+15551234567"; "5551234"; "123"; "+1234"; "12a45"; ""]
  = [true; true; false; false; false; false].
Proof. reflexivity. Qed.

Example splitLongMessage_by_three :
  splitLongMessage "abcdefg" 3 = Some ["abc"; "def"; "g"].
Proof. reflexivity. Qed.

(** With a segment size of zero the loop of the source never advances. *)
Example splitLongMessage_zero_diverges :
  splitLongMessage "abcdefg" 0 = None.
Proof. reflexivity. Qed.

Example partMessage_second_of_three :
  partMessage 3 1 "and more" = "(2/3) and more".
Proof. reflexivity. Qed.

(** X1. The numbers the format check lets through are exactly these: a
    plus sign followed by 5 to 17 digits, or 4 to 15 digits. *)
Lemma isValidPhoneNumber_spec (phoneNumber : string) :
  isValidPhoneNumber phoneNumber = true <->
  (exists digits,
      phoneNumber = String "+"%char digits /\
      Js.forallb Js.isDigit digits = true /\
      5 <= length digits <= 17)
  \/ (Js.forallb Js.isDigit phoneNumber = true /\ 4 <= length phoneNumber <= 15).
Proof.
  unfold isValidPhoneNumber, phoneRegex. rewrite JsFacts.reTest_spec. split.
  - intros H. inversion H as [| | |? ? ? Hl|? ? ? Hr]; subst.
    + left. apply JsFacts.reMatches_seq in Hl.
      destruct Hl as (plus & rest & -> & Hplus & Hrest).
      apply JsFacts.reMatches_seq in Hrest.
      destruct Hrest as (s1 & s2 & -> & H1 & H2).
      apply JsFacts.reRepeat_class in H1; [|lia].
      apply JsFacts.reRepeat_class in H2; [|lia].
      destruct H1 as [Hall1 Hlen1]. destruct H2 as [Hall2 Hlen2].
      inversion Hplus as [|? c Hc| | |]; subst.
      apply Ascii.eqb_eq in Hc. subst c.
      exists (s1 ++ s2). split; [reflexivity|].
      rewrite JsFacts.forallb_append, Hall1, Hall2, Js.length_append.
      split; [reflexivity|lia].
    + right. apply JsFacts.reRepeat_class in Hr; [exact Hr|lia].
  - intros [(digits & -> & Hall & Hlen)|[Hall Hlen]].
    + apply Js.MatchAltL.
      change (String "+"%char digits) with (String "+"%char "" ++ digits).
      constructor; [constructor; reflexivity|].
      set (k := Nat.max 1 (length digits - 14)).
      rewrite <- (Js.take_drop k digits). constructor.
      * apply JsFacts.reRepeat_class; [lia|].
        split; [now apply JsFacts.forallb_take|].
        rewrite Js.length_take. subst k. lia.
      * apply JsFacts.reRepeat_class; [lia|].
        split; [now apply JsFacts.forallb_drop|].
        rewrite Js.length_drop. subst k. lia.
    + apply Js.MatchAltR. apply JsFacts.reRepeat_class; [lia|].
      split; [exact Hall|exact Hlen].
Qed.

Lemma forallb_same_flags {A B : Type} (f : A -> bool) (g : B -> bool)
  (l1 : list A) (l2 : list B) :
  map f l1 = map g l2 -> forallb f l1 = forallb g l2.
Proof.
  revert l2; induction l1 as [|a l1 IH]; intros [|b l2] H;
    simpl in *; try discriminate; auto.
  injection H as Hhd Htl. rewrite Hhd. f_equal. auto.
Qed.

Section WithPlatform.

Variable World : Type.
Variable platform : Platform World.

(** C7. A recipient whose cleaned number fails the format check, and a
    body that is empty once trimmed, make [sendSMS] return a failure that
    carries a reason, with the state as it was: the native module is not
    called. *)
Theorem sendSMS_rejects_before_transport
  (phoneNumber message : string) (st : State World) :
  isValidPhoneNumber (cleanPhoneNumber phoneNumber) = false \/
  Js.trim message = "" ->
  exists reason,
    sendSMS World platform phoneNumber message st = (failure reason, st).
Proof.
  intros H. unfold sendSMS.
  destruct (nativeModule platform) as [native|]; [|eauto].
  destruct (isValidPhoneNumber (cleanPhoneNumber phoneNumber)) eqn:Hvalid;
    simpl; [|eauto].
  destruct H as [H|H]; [discriminate|].
  rewrite H. simpl. rewrite orb_true_r. eauto.
Qed.

Lemma partMessage_not_blank (total i : nat) (part : string) :
  1 < total ->
  negb (Js.truthy (partMessage total i part))
  || (length (Js.trim (partMessage total i part)) =? 0) = false.
Proof.
  intros Htotal. unfold partMessage.
  destruct (Nat.ltb_spec 1 total) as [_|]; [|lia].
  simpl. unfold Js.trim. simpl.
  destruct (Js.trimEnd _); reflexivity.
Qed.

(** One send that passes both checks reaches the native module once, and
    succeeds exactly when the native module accepts. *)
Lemma sendSMS_reaches_native native (phoneNumber message : string)
  (st : State World) :
  nativeModule platform = Some native ->
  isValidPhoneNumber (cleanPhoneNumber phoneNumber) = true ->
  negb (Js.truthy message) || (length (Js.trim message) =? 0) = false ->
  exists result call w,
    sendSMS World platform phoneNumber message st
    = (result, mkState w (calls st ++ [call])) /\
    text call = Js.trim message /\
    success result = accepted call.
Proof.
  intros Hnative Hvalid Hbody. unfold sendSMS.
  rewrite Hnative, Hvalid, Hbody. simpl.
  destruct (native _ _ _) as [out w].
  destruct out as [mid|e]; do 3 eexists; repeat split.
Qed.

Lemma sendParts_per_part native (phoneNumber : string) (total : nat) :
  nativeModule platform = Some native ->
  isValidPhoneNumber (cleanPhoneNumber phoneNumber) = true ->
  1 < total ->
  forall parts i results st,
  exists newResults newCalls st',
    sendParts World platform phoneNumber total i parts results st
    = ((results ++ newResults)%list, st') /\
    calls st' = (calls st ++ newCalls)%list /\
    map text newCalls = map Js.trim (labels total i parts) /\
    map success newResults = map accepted newCalls.
Proof.
  intros Hnative Hvalid Htotal.
  induction parts as [|part rest IH]; intros i results st; simpl.
  - exists [], [], st. rewrite !app_nil_r. auto.
  - destruct (sendSMS_reaches_native native phoneNumber
                (partMessage total i part) st Hnative Hvalid
                (partMessage_not_blank total i part Htotal))
      as (result & call & w & Hsend & Htext & Hsucc).
    rewrite Hsend.
    match goal with
    | |- context [sendParts _ _ _ _ _ _ _ ?s] =>
        destruct (IH (i + 1) (results ++ [result])%list s)
          as (newResults & newCalls & st' & Hrun & Hcalls & Htexts & Hsuccs)
    end.
    exists (result :: newResults), (call :: newCalls), st'.
    rewrite Hrun. repeat split.
    + now rewrite <- app_assoc.
    + rewrite Hcalls. destruct (i <? total - 1); simpl;
        now rewrite <- app_assoc.
    + simpl. now rewrite Htext, Htexts.
    + simpl. now rewrite Hsucc, Hsuccs.
Qed.

(** [sendLongSMS] always returns: the split with the default segment size
    does, and the loop over the parts is structural. *)
Lemma sendLongSMS_total (phoneNumber message : string) (st : State World) :
  exists results st',
    sendLongSMS World platform phoneNumber message st = Some (results, st').
Proof.
  unfold sendLongSMS.
  destruct (SplitFacts.splitLongMessage_default_total message) as [parts ->].
  destruct (sendParts World platform phoneNumber (List.length parts) 0 parts [] st)
    as [results st'].
  eauto.
Qed.

(** C1 (as the code has it). [sendLongSMS] computes no overall outcome: it
    returns one result per part.  With a native module, a recipient that
    passes the format check and a message longer than one segment, every
    part is handed to the native module in order, whatever became of the
    parts before it, and the result of a part is a success exactly when
    the native module accepted that part; so the results are all
    successes exactly when every part was accepted. *)
Theorem sendLongSMS_one_result_per_part native
  (phoneNumber message : string) (st : State World) :
  nativeModule platform = Some native ->
  isValidPhoneNumber (cleanPhoneNumber phoneNumber) = true ->
  160 < length message ->
  exists parts results st' newCalls,
    splitLongMessage message 160 = Some parts /\
    sendLongSMS World platform phoneNumber message st = Some (results, st') /\
    calls st' = (calls st ++ newCalls)%list /\
    map text newCalls = map Js.trim (labels (List.length parts) 0 parts) /\
    map success results = map accepted newCalls /\
    (forallb success results = true <-> forallb accepted newCalls = true).
Proof.
  intros Hnative Hvalid Hlong.
  destruct (SplitFacts.splitLongMessage_long message Hlong)
    as (parts & Hsplit & Hparts).
  destruct (sendParts_per_part native phoneNumber (List.length parts)
              Hnative Hvalid Hparts parts 0 [] st)
    as (results & newCalls & st' & Hrun & Hcalls & Htexts & Hsucc).
  exists parts, results, st', newCalls.
  unfold sendLongSMS. rewrite Hsplit, Hrun. simpl.
  repeat split; auto; rewrite (forallb_same_flags _ _ _ _ Hsucc); auto.
Qed.

End WithPlatform.

(** A phone whose radio is out for the first send and back afterwards; the
    world counts the sends made so far. *)
Definition flakyNative (number text : string) (sends : nat)
  : NativeOutcome * nat :=
  (if sends =? 0
   then Rejected (Js.newError "No service")
   else Resolved (Some ("msg-" ++ Js.ofNat sends)),
   S sends).

Definition flakyPhone : Platform nat :=
  mkPlatform nat (Some flakyNative) (fun sends => sends) (fun _ sends => sends).

(** Some parts are reported sent and some failed. *)
Definition partialSuccess (results : list SMSResult) : bool :=
  existsb success results && existsb (fun r => negb (success r)) results.

Lemma sendSMS_rejects_before_transport_witness :
  exists reason,
    sendSMS nat flakyPhone "12-3" "Your order has shipped" (mkState 0 [])
    = (failure reason, mkState 0 []).
Proof.
  apply (sendSMS_rejects_before_transport nat flakyPhone
           "12-3" "Your order has shipped" (mkState 0 [])).
  left. reflexivity.
Defined.

Lemma sendLongSMS_one_result_per_part_witness :
  exists parts results st' newCalls,
    splitLongMessage (Js.repeat "a" 200) 160 = Some parts /\
    sendLongSMS nat flakyPhone "+15551234567" (Js.repeat "a" 200) (mkState 0 [])
    = Some (results, st') /\
    calls st' = ([] ++ newCalls)%list /\
    map text newCalls = map Js.trim (labels (List.length parts) 0 parts) /\
    map success results = map accepted newCalls /\
    (forallb success results = true <-> forallb accepted newCalls = true).
Proof.
  apply (sendLongSMS_one_result_per_part nat flakyPhone flakyNative
           "+15551234567" (Js.repeat "a" 200) (mkState 0 [])).
  - reflexivity.
  - reflexivity.
  - apply Nat.ltb_lt. reflexivity.
Defined.

(** The first of two parts fails and the second is still sent: the call
    yields a failed and a sent result side by side, not one failed outcome
    for the message. *)
Lemma sendLongSMS_partial_success :
  exists results st',
    sendLongSMS nat flakyPhone "+15551234567" (Js.repeat "a" 200) (mkState 0 [])
    = Some (results, st') /\
    map success results = [false; true] /\
    map accepted (calls st') = [false; true] /\
    partialSuccess results = true.
Proof.
  eexists. eexists. split; [vm_compute; reflexivity|].
  repeat split.
Qed.

End SendFacts.

(** ** The bridge application: [sendSMS] and [updateMessageStatus] *)

Module BridgeApp.

(** ['pending' | 'sent' | 'failed'] *)
Inductive Status : Type := Pending | Sent | Failed.

(** The ['sent' | 'failed'] argument of [updateMessageStatus]. *)
Inductive Report : Type := ReportSent | ReportFailed.

Definition statusOf (r : Report) : Status :=
  match r with
  | ReportSent => Sent
  | ReportFailed => Failed
  end.

(** [interface SMSMessage] *)
Record SMSMessage : Type := mkSMSMessage {
  id : string;
  to : string;
  message : string;
  campaignId : string;
  status : Status;
  timestamp : nat
}.

(** [{ ...msg, status }] *)
Definition withStatus (msg : SMSMessage) (s : Status) : SMSMessage :=
  mkSMSMessage (id msg) (to msg) (message msg) (campaignId msg) s (timestamp msg).

(** The updater that [updateMessageStatus] hands to [setMessageQueue]. *)
Definition updateMessageStatus (messageId : string) (status : Report)
  (prev : list SMSMessage) : list SMSMessage :=
  map (fun msg =>
         if String.eqb (id msg) messageId
         then withStatus msg (statusOf status)
         else msg)
      prev.

(** The body of the status [PUT] sent to the server. *)
Record StatusBody : Type := mkStatusBody {
  bodyStatus : Report;
  bodyError : option string;
  bodyDeviceId : option string;
  bodyTimestamp : nat
}.

(** The platform under the application: [SmsManagerModule.sendSMS(to,
    message, campaignId)], [fetch(url, {method: 'PUT', body})], the clock
    and the wall-clock text used by [addLog]. *)
Record Platform (World : Type) : Type := mkPlatform {
  nativeSendSMS : string -> string -> string -> World -> Js.Completion unit * World;
  fetchPut : string -> StatusBody -> World -> Js.Completion unit * World;
  dateNow : World -> nat;
  localeTime : World -> string
}.
Arguments nativeSendSMS {World}.
Arguments fetchPut {World}.
Arguments dateNow {World}.
Arguments localeTime {World}.

(** What the component closes over. *)
Record Config : Type := mkConfig {
  serverUrl : string;
  deviceId : option string
}.

Record AppState (World : Type) : Type := mkAppState {
  messageQueue : list SMSMessage;
  logs : list string;
  world : World;
  nativeCalls : list (string * string * string);
  requests : list (string * StatusBody)
}.
Arguments mkAppState {World}.
Arguments messageQueue {World}.
Arguments logs {World}.
Arguments world {World}.
Arguments nativeCalls {World}.
Arguments requests {World}.

Section App.

Variable World : Type.
Variable platform : Platform World.
Variable config : Config.

Definition setMessageQueue (f : list SMSMessage -> list SMSMessage)
  (st : AppState World) : AppState World :=
  mkAppState (f (messageQueue st)) (logs st) (world st) (nativeCalls st) (requests st).

(** [setLogs(prev => [`[${timestamp}] ${message}`, ...prev.slice(0, 49)])] *)
Definition addLog (text : string) (st : AppState World) : AppState World :=
  mkAppState (messageQueue st)
    (("[" ++ localeTime platform (world st) ++ "] " ++ text) :: firstn 49 (logs st))
    (world st) (nativeCalls st) (requests st).

Definition statusUrl (message : SMSMessage) : string :=
  serverUrl config ++ "/api/messages/" ++ id message ++ "/status".

(** [await fetch(url, ...)]: the request is recorded, the world moves on. *)
Definition putStatus (message : SMSMessage) (r : Report) (err : option string)
  (st : AppState World) : Js.Completion unit * AppState World :=
  let body := mkStatusBody r err (deviceId config) (dateNow platform (world st)) in
  let '(done, w) := fetchPut platform (statusUrl message) body (world st) in
  (done,
   mkAppState (messageQueue st) (logs st) w (nativeCalls st)
     (requests st ++ [(statusUrl message, body)])).

(** The [catch] block of [sendSMS]. *)
Definition sendSMS_catch (message : SMSMessage) (error : Js.Thrown)
  (st : AppState World) : Js.Completion unit * AppState World :=
  let st1 := addLog ("SMS send error: " ++ Js.toString error) st in
  let st2 := setMessageQueue (updateMessageStatus (id message) ReportFailed) st1 in
  putStatus message ReportFailed (Some (Js.toString error)) st2.

Definition sendSMS (message : SMSMessage) (st : AppState World)
  : Js.Completion unit * AppState World :=
  let st1 := setMessageQueue (fun prev => (prev ++ [withStatus message Pending])%list) st in
  let '(result, w) :=
    nativeSendSMS platform (to message) (BridgeApp.message message)
      (campaignId message) (world st1) in
  let st2 :=
    mkAppState (messageQueue st1) (logs st1) w
      (nativeCalls st1 ++ [(to message, BridgeApp.message message, campaignId message)])
      (requests st1) in
  match result with
  | Js.Returned _ =>
      let '(reported, st3) := putStatus message ReportSent None st2 in
      match reported with
      | Js.Returned _ =>
          (Js.Returned tt,
           setMessageQueue (updateMessageStatus (id message) ReportSent) st3)
      | Js.Threw error => sendSMS_catch message error st3
      end
  | Js.Threw error => sendSMS_catch message error st2
  end.

End App.



End BridgeApp.

(** ** Facts about the bridge application *)

Module BridgeFacts.
Import BridgeApp.

Lemma updateMessageStatus_sets (messageId : string) (r : Report)
  (queue : list SMSMessage) (m : SMSMessage) :
  In m (updateMessageStatus messageId r queue) ->
  id m = messageId ->
  status m = statusOf r.
Proof.
  unfold updateMessageStatus. intros Hin Hid.
  apply in_map_iff in Hin. destruct Hin as (msg & Hm & _).
  destruct (String.eqb_spec (id msg) messageId) as [_|Hne].
  - subst m. reflexivity.
  - subst m. contradiction.
Qed.

Lemma updateMessageStatus_twice (messageId : string) (r1 r2 : Report)
  (queue : list SMSMessage) :
  updateMessageStatus messageId r2 (updateMessageStatus messageId r1 queue)
  = updateMessageStatus messageId r2 queue.
Proof.
  unfold updateMessageStatus. rewrite map_map. apply map_ext.
  intros msg. destruct (String.eqb_spec (id msg) messageId) as [Heq|Hne].
  - simpl. rewrite Heq, String.eqb_refl. reflexivity.
  - destruct (String.eqb_spec (id msg) messageId); [contradiction|reflexivity].
Qed.

(** What one report does to one entry of the queue. *)
Lemma updateMessageStatus_entry (messageId : string) (r : Report)
  (queue : list SMSMessage) (k : nat) (m : SMSMessage) :
  nth_error queue k = Some m ->
  nth_error (updateMessageStatus messageId r queue) k
  = Some (if String.eqb (id m) messageId then withStatus m (statusOf r) else m).
Proof.
  intros Hm. unfold updateMessageStatus. now rewrite nth_error_map, Hm.
Qed.

(** C3 (as the code has it). A status report is applied without looking
    at the status the message already has.  After two reports for the same
    message id the queue has the entries it had, in their places; every
    entry with that id has the status of the later report, whatever its
    status was and whatever the first report said, and differs from what
    it was in its status only; every other entry is as it was.  Repeating
    the later report changes nothing. *)
Theorem updateMessageStatus_last_report_wins (messageId : string)
  (first later : Report) (queue : list SMSMessage) :
  let reported :=
    updateMessageStatus messageId later (updateMessageStatus messageId first queue) in
  List.length reported = List.length queue
  /\
  (forall k m,
      nth_error queue k = Some m ->
      exists m',
        nth_error reported k = Some m' /\
        (id m = messageId ->
         status m' = statusOf later /\ withStatus m' (status m) = m) /\
        (id m <> messageId -> m' = m))
  /\
  updateMessageStatus messageId later reported = reported.
Proof.
  cbn zeta. rewrite updateMessageStatus_twice. split; [|split].
  - unfold updateMessageStatus. apply length_map.
  - intros k m Hm. eexists. split; [apply updateMessageStatus_entry; exact Hm|].
    destruct (String.eqb_spec (id m) messageId) as [Heq|Hne].
    + split; [|contradiction]. intros _. split; [reflexivity|]. now destruct m.
    + split; [contradiction|reflexivity].
  - apply updateMessageStatus_twice.
Qed.

Definition welcome : SMSMessage :=
  mkSMSMessage "m1" "+15551234567" "Welcome aboard" "spring" Pending 0.

(** A failed report that arrives after a sent report for the same id
    replaces it: the first terminal report does not win. *)
Lemma later_report_replaces_first :
  updateMessageStatus "m1" ReportFailed (updateMessageStatus "m1" ReportSent [welcome])
  <> updateMessageStatus "m1" ReportSent [welcome]
  /\
  map status
    (updateMessageStatus "m1" ReportFailed (updateMessageStatus "m1" ReportSent [welcome]))
  = [Failed].
Proof.
  split; [discriminate|reflexivity].
Qed.

Section App.

Variable World : Type.
Variable platform : Platform World.
Variable config : Config.


End App.

(** A phone without service: every native send is rejected; the server
    takes every report. *)
Definition noService : Platform unit :=
  mkPlatform unit
    (fun _ _ _ w => (Js.Threw (Js.newError "No service"), w))
    (fun _ _ w => (Js.Returned tt, w))
    (fun _ => 0)
    (fun _ => "10:00:00").

Definition homeServer : Config :=
  mkConfig "http://192.168.1.100:4000" (Some "device-1").

Definition freshApp : AppState unit := mkAppState [] [] tt [] [].



End BridgeFacts.

(** ** The WebUSB modem adapter: [WebUSBSMS] *)

Module WebUSBSMS.

(** ['online' | 'offline' | 'busy' | 'error'] *)
Inductive Status : Type := Online | Offline | Busy | Error.

(** The fields of a [WebUSBSMS] object that [sendSMS] reads or writes.
    [device] tells whether [this.device] is set; [messageQueue] is a
    number that holds an integer, counted up and down with
    [Js.increment] and [Js.decrement]. *)
Record Device : Type := mkDevice {
  id : string;
  status : Status;
  lastSeen : nat;
  messageQueue : Z;
  device : bool
}.

(** What [sendSMS] resolves with. *)
Record SendResult : Type := mkSendResult {
  messageId : string;
  resultStatus : string
}.

(** The argument of [sendSMS]. *)
Record Options : Type := mkOptions {
  to : string;
  message : string;
  campaignId : option string
}.

(** The USB endpoint and the clock: [device.transferOut(1, data)] with the
    text that was encoded, [device.transferIn(1, 256)] with the decoded
    [response.data] when there is one, and a reading of the clock
    ([new Date()], [Date.now()]): the time read, and the world after the
    reading, in which the next reading may give another time. *)
Record Platform (World : Type) : Type := mkPlatform {
  transferOut : string -> World -> Js.Completion unit * World;
  transferIn : World -> Js.Completion (option string) * World;
  dateNow : World -> nat * World
}.
Arguments transferOut {World}.
Arguments transferIn {World}.
Arguments dateNow {World}.

Definition CRLF : string := String (ascii_of_nat 13) (String (ascii_of_nat 10) "").
Definition CtrlZ : string := String (ascii_of_nat 26) "".
Definition Quote : string := String (ascii_of_nat 34) "".

(** [this.status = 'busy'; this.messageQueue++] *)
Definition beginSend (d : Device) : Device :=
  mkDevice (id d) Busy (lastSeen d) (Js.increment (messageQueue d)) (device d).

(** [this.status = 'online'; this.messageQueue--; this.lastSeen = new Date()] *)
Definition finishOk (now : nat) (d : Device) : Device :=
  mkDevice (id d) Online now (Js.decrement (messageQueue d)) (device d).

(** [this.status = 'error'; this.messageQueue--] *)
Definition finishErr (d : Device) : Device :=
  mkDevice (id d) Error (lastSeen d) (Js.decrement (messageQueue d)) (device d).

(** [disconnect()] when releasing and closing go through. *)
Definition disconnect (d : Device) : Device :=
  mkDevice (id d) Offline (lastSeen d) (messageQueue d) false.

Section Adapter.

Variable World : Type.
Variable platform : Platform World.

(** An awaited platform call: it returns or throws, and moves the world. *)
Definition Async (A : Type) : Type := World -> Js.Completion A * World.

Definition ret {A : Type} (a : A) : Async A := fun w => (Js.Returned a, w).

Definition throw {A : Type} (e : Js.Thrown) : Async A := fun w => (Js.Threw e, w).

Definition bind {A B : Type} (m : Async A) (k : A -> Async B) : Async B :=
  fun w =>
    match m w with
    | (Js.Returned a, w') => k a w'
    | (Js.Threw e, w') => (Js.Threw e, w')
    end.

(** [try { m } catch (error) { throw handler(error) }] *)
Definition rethrow {A : Type} (m : Async A) (handler : Js.Thrown -> Js.Thrown)
  : Async A :=
  fun w =>
    match m w with
    | (Js.Returned a, w') => (Js.Returned a, w')
    | (Js.Threw e, w') => (Js.Threw (handler e), w')
    end.

Notation "x <- m ;; k" := (bind m (fun x => k))
  (at level 61, m at next level, right associativity).
Notation "m ;;; k" := (bind m (fun _ => k))
  (at level 61, right associativity).

Definition sendATCommand (d : Device) (command : string) : Async string :=
  if negb (device d) then throw (Js.newError "No USB device connected")
  else
    rethrow
      (transferOut platform (command ++ CRLF) ;;;
       response <- transferIn platform ;;
       match response with
       | Some data => ret data
       | None => ret ""
       end)
      (fun error => Js.newError ("AT command failed: " ++ Js.toString error)).

(** The four commands inside the [try] of [sendSMS]. *)
Definition sendCommands (d : Device) (options : Options) : Async string :=
  sendATCommand d "AT" ;;;
  sendATCommand d "AT+CMGF=1" ;;;
  sendATCommand d ("AT+CMGS=" ++ Quote ++ to options ++ Quote) ;;;
  sendATCommand d (message options ++ CtrlZ).

(** [sendSMS(options)], the call run on its own: no other method of the
    object runs while it waits for a command, so that [this.device] is at
    every command what it was at the check (calls that overlap are the
    steps below).  After the last command the clock is read twice, by
    [new Date()] for [lastSeen] and by [Date.now()] for the message id. *)
Definition sendSMS (options : Options) (d : Device) (w : World)
  : Js.Completion SendResult * Device * World :=
  if negb (device d)
  then (Js.Threw (Js.newError "No USB device connected"), d, w)
  else
    let d1 := beginSend d in
    match sendCommands d1 options w with
    | (Js.Returned _, w1) =>
        let '(seen, w2) := dateNow platform w1 in
        let d2 := finishOk seen d1 in
        let '(now, w3) := dateNow platform w2 in
        (Js.Returned (mkSendResult ("usb_" ++ id d2 ++ "_" ++ Js.ofNat now) "sent"),
         d2, w3)
    | (Js.Threw error, w1) =>
        (Js.Threw (Js.newError ("USB SMS sending failed: " ++ Js.toString error)),
         finishErr d1, w1)
    end.

End Adapter.

(** Calls of [sendSMS] that overlap: a call runs up to its first [await]
    in one go ([beginSend]), and its continuation runs later, after the
    last command ([finishOk]) or in the [catch] ([finishErr]); other calls
    and [disconnect] can run in between.  A configuration pairs the object
    with the number of calls that have begun and not yet finished. *)
Definition Config : Type := (Device * nat)%type.

Inductive step : Config -> Config -> Prop :=
| step_begin d n :
    device d = true -> step (d, n) (beginSend d, S n)
| step_finish_ok d n now :
    step (d, S n) (finishOk now d, n)
| step_finish_err d n :
    step (d, S n) (finishErr d, n)
| step_disconnect d n :
    step (d, n) (disconnect d, n).

(** The configurations reached from an object on which no call runs. *)
Inductive reachable (d0 : Device) : Config -> Prop :=
| reach_start : reachable d0 (d0, 0)
| reach_step c c' : reachable d0 c -> step c c' -> reachable d0 c'.

(** The same, with never more than [most] calls in flight on the way. *)
Inductive reachableWithin (d0 : Device) (most : nat) : Config -> Prop :=
| within_start : reachableWithin d0 most (d0, 0)
| within_step c c' :
    reachableWithin d0 most c -> step c c' -> snd c' <= most ->
    reachableWithin d0 most c'.



End WebUSBSMS.

(** ** Facts about the WebUSB modem adapter *)

Module WebUSBFacts.
Import WebUSBSMS.

Section Adapter.

Variable World : Type.
Variable platform : Platform World.



(** The paths of [sendSMS] with a device attached: the commands go
    through and the clock is read twice, or a command throws. *)
Lemma sendSMS_paths (options : Options) (d : Device) (w : World) :
  device d = true ->
  (exists text w1,
      sendCommands World platform (beginSend d) options w = (Js.Returned text, w1) /\
      sendSMS World platform options d w
      = (Js.Returned
           (mkSendResult
              ("usb_" ++ id d ++ "_"
               ++ Js.ofNat (fst (dateNow platform (snd (dateNow platform w1)))))
              "sent"),
         finishOk (fst (dateNow platform w1)) (beginSend d),
         snd (dateNow platform (snd (dateNow platform w1)))))
  \/
  (exists error w1,
      sendCommands World platform (beginSend d) options w = (Js.Threw error, w1) /\
      sendSMS World platform options d w
      = (Js.Threw (Js.newError ("USB SMS sending failed: " ++ Js.toString error)),
         finishErr (beginSend d), w1)).
Proof.
  intros Hdev. unfold sendSMS. rewrite Hdev. cbn [negb].
  destruct (sendCommands World platform (beginSend d) options w)
    as [[text|error] w1].
  - left. exists text, w1. split; [reflexivity|].
    destruct (dateNow platform w1) as [seen w2]. cbn [fst snd].
    destruct (dateNow platform w2) as [now w3]. reflexivity.
  - right. exists error, w1. split; reflexivity.
Qed.


(** C9. A call of [sendSMS] leaves [messageQueue] at the value it had
    before the call, whether it returns or throws: nothing is counted when
    no device is attached, and otherwise the increment on entry is undone
    on the success path and in the [catch].  The counter is a number: this
    holds while it is an integer from -2^53 to below 2^53, where counting
    up and down is exact. *)
Theorem sendSMS_restores_messageQueue (options : Options) (d : Device) (w : World) :
  (- 2 ^ 53 <= messageQueue d < 2 ^ 53)%Z ->
  messageQueue (snd (fst (sendSMS World platform options d w))) = messageQueue d.
Proof.
  intros Hsafe.
  assert (Hback : Js.decrement (Js.increment (messageQueue d)) = messageQueue d).
  { rewrite Js.increment_exact by exact Hsafe.
    rewrite Js.decrement_exact by lia. lia. }
  destruct (device d) eqn:Hdev.
  - destruct (sendSMS_paths options d w Hdev)
      as [(text & w1 & _ & ->)|(error & w1 & _ & ->)]; exact Hback.
  - unfold sendSMS. rewrite Hdev. reflexivity.
Qed.

(** Past the exact integers the counter is not restored: a call made with
    the counter at 2^53 ends with it one lower, on either path. *)
Lemma sendSMS_loses_one_at_the_edge (options : Options) (d : Device) (w : World) :
  device d = true ->
  messageQueue d = (2 ^ 53)%Z ->
  messageQueue (snd (fst (sendSMS World platform options d w))) = (2 ^ 53 - 1)%Z.
Proof.
  intros Hdev Hedge.
  destruct (sendSMS_paths options d w Hdev)
    as [(text & w1 & _ & ->)|(error & w1 & _ & ->)];
    cbn [fst snd finishOk finishErr beginSend messageQueue]; rewrite Hedge;
    reflexivity.
Qed.

(** Run alone, a call that gets past the device check is one [step_begin]
    followed by one finishing step. *)
Lemma sendSMS_is_two_steps (options : Options) (d : Device) (w : World) (n : nat) :
  device d = true ->
  step (d, n) (beginSend d, S n) /\
  step (beginSend d, S n) (snd (fst (sendSMS World platform options d w)), n).
Proof.
  intros Hdev. split; [constructor; exact Hdev|].
  destruct (sendSMS_paths options d w Hdev)
    as [(text & w1 & _ & ->)|(error & w1 & _ & ->)]; constructor.
Qed.

End Adapter.

Lemma reachableWithin_reachable (d0 : Device) (most : nat) (c : Config) :
  reachableWithin d0 most c -> reachable d0 c.
Proof.
  induction 1 as [|c c' _ IH Hstep _]; [constructor|].
  eapply reach_step; eauto.
Qed.

Lemma reachableWithin_most (d0 : Device) (most : nat) (c : Config) :
  reachableWithin d0 most c -> snd c <= most.
Proof.
  induction 1; simpl; lia.
Qed.

(** While the count stays an exact integer, a step moves the counter as
    it moves the number of calls in flight. *)
Lemma step_messageQueue (c c' : Config) (start : Z) (most : nat) :
  (- 2 ^ 53 <= start)%Z ->
  (start + Z.of_nat most <= 2 ^ 53)%Z ->
  snd c <= most ->
  snd c' <= most ->
  step c c' ->
  messageQueue (fst c) = (start + Z.of_nat (snd c))%Z ->
  messageQueue (fst c') = (start + Z.of_nat (snd c'))%Z.
Proof.
  intros Hlow Hhigh Hc Hc' Hstep Hq.
  destruct Hstep; cbn [fst snd beginSend finishOk finishErr disconnect messageQueue] in *.
  - rewrite Js.increment_exact by lia. lia.
  - rewrite Js.decrement_exact by lia. lia.
  - rewrite Js.decrement_exact by lia. lia.
  - exact Hq.
Qed.

(** Sends can be begun one after another without any of them finishing. *)
Lemma reachable_pile_up (d0 : Device) (most : nat) :
  (- 2 ^ 53 <= messageQueue d0)%Z ->
  (messageQueue d0 + Z.of_nat most <= 2 ^ 53)%Z ->
  device d0 = true ->
  forall k : nat,
  k <= most ->
  exists d,
    reachableWithin d0 most (d, k) /\ device d = true /\
    messageQueue d = (messageQueue d0 + Z.of_nat k)%Z.
Proof.
  intros Hlow Hhigh Hdev. induction k as [|k IH]; intros Hk.
  - exists d0. repeat split; [constructor|exact Hdev|simpl; lia].
  - destruct IH as (d & Hreach & Hd & Hq); [lia|].
    exists (beginSend d). repeat split.
    + eapply within_step; [exact Hreach| |simpl; lia]. constructor. exact Hd.
    + exact Hd.
    + cbn [beginSend messageQueue]. rewrite Js.increment_exact by lia. lia.
Qed.

(** C4 (as the code has it). Take an object whose counter holds an
    integer, and a number of overlapping calls that keeps it within the
    integers a number counts exactly (up to 2^53).  In every configuration
    reached from the idle object with at most that many calls in flight,
    [messageQueue] stands above its starting value by exactly the number
    of sends that have begun and not finished.  [sendSMS] compares that
    count with no limit: with a device attached, every limit below that
    number of calls is exceeded in some such configuration. *)
Theorem messageQueue_counts_sends_in_flight (d0 : Device) (most : nat) :
  (- 2 ^ 53 <= messageQueue d0)%Z ->
  (messageQueue d0 + Z.of_nat most <= 2 ^ 53)%Z ->
  (forall c,
      reachableWithin d0 most c ->
      messageQueue (fst c) = (messageQueue d0 + Z.of_nat (snd c))%Z)
  /\
  (device d0 = true ->
   forall limit : nat,
   limit < most ->
   exists c,
     reachableWithin d0 most c /\
     (messageQueue d0 + Z.of_nat limit < messageQueue (fst c))%Z).
Proof.
  intros Hlow Hhigh. split.
  - intros c Hreach. induction Hreach as [|c c' Hreach IH Hstep Hmost].
    + simpl. lia.
    + apply (step_messageQueue c c' (messageQueue d0) most); auto.
      eapply reachableWithin_most; eauto.
  - intros Hdev limit Hlimit.
    destruct (reachable_pile_up d0 most Hlow Hhigh Hdev (S limit))
      as (d & Hreach & _ & Hq); [lia|].
    exists (d, S limit). split; [exact Hreach|]. simpl. lia.
Qed.

(** A modem as [connectDevice] leaves it: online, nothing in flight. *)
Definition modem : Device := mkDevice "usb_1" Online 0 0 true.

(** The same object before any device was attached. *)
Definition unplugged : Device := mkDevice "usb_1" Offline 0 0 false.

(** An endpoint that answers every command with OK. *)
Definition steadyEndpoint : Platform unit :=
  mkPlatform unit
    (fun _ w => (Js.Returned tt, w))
    (fun w => (Js.Returned (Some "OK"), w))
    (fun w => (0, w)).

Definition hello : Options := mkOptions "+15551234567" "Hello" None.

Lemma messageQueue_counts_sends_in_flight_witness :
  (forall c,
      reachableWithin modem 64 c ->
      messageQueue (fst c) = (messageQueue modem + Z.of_nat (snd c))%Z)
  /\
  (device modem = true ->
   forall limit : nat,
   limit < 64 ->
   exists c,
     reachableWithin modem 64 c /\
     (messageQueue modem + Z.of_nat limit < messageQueue (fst c))%Z).
Proof.
  apply (messageQueue_counts_sends_in_flight modem 64); vm_compute; discriminate.
Defined.

Lemma sendSMS_restores_messageQueue_witness :
  messageQueue (snd (fst (sendSMS unit steadyEndpoint hello modem tt)))
  = messageQueue modem.
Proof.
  apply (sendSMS_restores_messageQueue unit steadyEndpoint hello modem tt).
  split; vm_compute; [discriminate|reflexivity].
Defined.

(** With a limit of one send at a time, two calls begun back to back put
    two sends in flight on the same modem. *)
Lemma two_sends_in_flight_past_limit_one :
  exists c,
    reachable modem c /\ messageQueue (fst c) = 2%Z /\ (1 < messageQueue (fst c))%Z.
Proof.
  exists (beginSend (beginSend modem), 2). repeat split.
  eapply reach_step; [eapply reach_step; [apply reach_start|]|];
    constructor; reflexivity.
Qed.



End WebUSBFacts.


(** ** [NetworkService.send] *)

Module NetworkService.

(** [WebSocket.readyState] *)
Inductive ReadyState : Type := CONNECTING | OPEN | CLOSING | CLOSED.

Definition isOpen (s : ReadyState) : bool :=
  match s with
  | OPEN => true
  | _ => false
  end.

(** The socket with the texts handed to [socket.send] so far. *)
Record WebSocket : Type := mkWebSocket {
  readyState : ReadyState;
  sent : list string
}.

(** [interface DeviceInfo] *)
Record DeviceInfo : Type := mkDeviceInfo {
  deviceId : string;
  deviceName : string
}.

(** The fields of the service; timers are kept by their handle. *)
Record Service : Type := mkService {
  socket : option WebSocket;
  serverUrl : string;
  deviceInfo : option DeviceInfo;
  isConnected : bool;
  reconnectTimeout : option nat;
  heartbeatInterval : option nat
}.

(** The object [send] builds: [{ type, data, timestamp, deviceId }]. *)
Record Message (Data : Type) : Type := mkMessage {
  messageType : string;
  messageData : Data;
  messageTimestamp : string;
  messageDeviceId : option string
}.
Arguments mkMessage {Data}.

Inductive ConsoleLine : Type :=
| ConsoleWarn (text : string)
| ConsoleError (text : string) (error : Js.Thrown).

(** [JSON.stringify], which throws on data it cannot write, the socket's
    [send], and [new Date().toISOString()]. *)
Record Platform (Data World : Type) : Type := mkPlatform {
  stringify : Message Data -> Js.Completion string;
  socketSend : string -> World -> Js.Completion unit;
  toISOString : World -> string
}.
Arguments stringify {Data World}.
Arguments socketSend {Data World}.
Arguments toISOString {Data World}.

Section Service.

Variables Data World : Type.
Variable platform : Platform Data World.

Definition withSocket (st : Service) (ws : WebSocket) : Service :=
  mkService (Some ws) (serverUrl st) (deviceInfo st) (isConnected st)
    (reconnectTimeout st) (heartbeatInterval st).

(** [send(type, data)]: how the call ends, the service after it and what
    it wrote to the console. *)
Definition send (type : string) (data : Data) (st : Service) (w : World)
  : Js.Completion unit * Service * list ConsoleLine :=
  match socket st with
  | None =>
      (Js.Returned tt, st, [ConsoleWarn "WebSocket not connected, cannot send message"])
  | Some ws =>
      if negb (isOpen (readyState ws))
      then (Js.Returned tt, st,
            [ConsoleWarn "WebSocket not connected, cannot send message"])
      else
        let message :=
          mkMessage type data (toISOString platform w)
            (option_map deviceId (deviceInfo st)) in
        match stringify platform message with
        | Js.Threw error =>
            (Js.Returned tt, st,
             [ConsoleError "Failed to send WebSocket message:" error])
        | Js.Returned text =>
            match socketSend platform text w with
            | Js.Threw error =>
                (Js.Returned tt, st,
                 [ConsoleError "Failed to send WebSocket message:" error])
            | Js.Returned _ =>
                (Js.Returned tt,
                 withSocket st (mkWebSocket (readyState ws) (sent ws ++ [text])),
                 [])
            end
        end
  end.

(** C10. While the socket is absent or not open, [send] returns without
    throwing, for every type and payload: the service is as it was, so
    nothing was handed to the socket, and the one trace is the console
    warning. *)
Theorem send_drops_when_not_open (type : string) (data : Data) (st : Service)
  (w : World) :
  socket st = None \/
  (exists ws, socket st = Some ws /\ readyState ws <> OPEN) ->
  send type data st w
  = (Js.Returned tt, st,
     [ConsoleWarn "WebSocket not connected, cannot send message"]).
Proof.
  intros [Hnone|(ws & Hsome & Hstate)]; unfold send.
  - rewrite Hnone. reflexivity.
  - rewrite Hsome. destruct (readyState ws); simpl; try reflexivity.
    contradiction.
Qed.

End Service.

(** A service that was never connected. *)
Definition idle : Service := mkService None "" None false None None.

Definition textPlatform : Platform string unit :=
  mkPlatform string unit
    (fun m => Js.Returned (messageType string m ++ ":" ++ messageData string m))
    (fun _ _ => Js.Returned tt)
    (fun _ => "2024-01-01T00:00:00.000Z").

Lemma send_drops_when_not_open_witness :
  send string unit textPlatform "sms-sent" "m1" idle tt
  = (Js.Returned tt, idle,
     [ConsoleWarn "WebSocket not connected, cannot send message"]).
Proof.
  apply (send_drops_when_not_open string unit textPlatform "sms-sent" "m1" idle tt).
  left. reflexivity.
Defined.

End NetworkService.

(** ** The campaign builder: [generatePreview] *)

Module CampaignBuilder.

(** [interface Contact]: the own keys of the object, in the order
    [Object.keys] lists them, each with its value. *)
Definition Contact : Type := list (string * string).

Definition isLower (c : ascii) : bool :=
  let n := nat_of_ascii c in (97 <=? n) && (n <=? 122).

Definition isUpper (c : ascii) : bool :=
  let n := nat_of_ascii c in (65 <=? n) && (n <=? 90).

Definition toUpperChar (c : ascii) : ascii :=
  if isLower c then ascii_of_nat (nat_of_ascii c - 32) else c.

(** [key.toUpperCase()], on keys written in ASCII. *)
Fixpoint toUpperCase (s : string) : string :=
  match s with
  | EmptyString => EmptyString
  | String c s' => String (toUpperChar c) (toUpperCase s')
  end.

(** [`{${key.toUpperCase()}}`] *)
Definition placeholder (key : string) : string :=
  "{" ++ toUpperCase key ++ "}".

(** [s.replace(new RegExp(pattern, 'g'), replacement)] for a pattern that
    reads as a non-empty literal and a replacement without [$]: the
    matches are taken from left to right and do not overlap.  [skip] counts
    the characters of the current match that are still to be passed. *)
Fixpoint replaceFrom (skip : nat) (pattern replacement s : string) : string :=
  match s with
  | EmptyString => EmptyString
  | String c s' =>
      match skip with
      | S k => replaceFrom k pattern replacement s'
      | 0 =>
          if Js.startsWith s pattern
          then replacement ++ replaceFrom (length pattern - 1) pattern replacement s'
          else String c (replaceFrom 0 pattern replacement s')
      end
  end.

Definition replaceAll (pattern replacement s : string) : string :=
  replaceFrom 0 pattern replacement s.

(** The characters of a key with which the pattern [`{${KEY}}`] reads as
    a literal, unless the key is a number: ASCII letters, digits,
    underscores and spaces. *)
Definition isPlainChar (c : ascii) : bool :=
  isLower c || isUpper c || Js.isDigit c
  || Ascii.eqb c "_"%char || Ascii.eqb c " "%char.

(** A key made of digits: its pattern, such as [{12}], is a quantifier
    with nothing to repeat, on which [new RegExp] throws. *)
Definition isNumber (key : string) : bool :=
  Js.truthy key && Js.forallb Js.isDigit key.

Definition plainKey (key : string) : bool :=
  Js.forallb isPlainChar key && negb (isNumber key).

(** A replacement that reads as a literal holds no [$]. *)
Definition plainValue (value : string) : bool :=
  Js.forallb (fun c => negb (Ascii.eqb c "$"%char)) value.

Definition isAscii (c : ascii) : bool := nat_of_ascii c <? 128.

(** How [generatePreview] ends.  It returns the preview, or
    [new RegExp(pattern, 'g')] throws a [SyntaxError] (whose message is
    the engine's), or it meets a key and a value that are not read here:
    a key with a character outside ASCII, whose upper case is not
    followed, or, with the placeholder in the message, a key with a
    character that is not plain, which the regular expression may read as
    syntax, or a value with a [$], which [replace] may read as a
    pattern. *)
Inductive Preview : Type :=
| Generated (preview : string)
| SyntaxError (pattern : string)
| Unread (key value : string).

(** The body of the [forEach] for a key and a value that are read as
    literals. *)
Definition substitute (preview : string) (field : string * string) : string :=
  let '(key, value) := field in
  if Js.includes preview (placeholder key)
  then replaceAll (placeholder key) (if Js.truthy value then value else "") preview
  else preview.

(** The body of the [forEach]: one key of the contact.  The regular
    expression is made, and the value read, only when the message holds
    the placeholder. *)
Definition forEachBody (preview : string) (field : string * string) : Preview :=
  let '(key, value) := field in
  if negb (Js.forallb isAscii key) then Unread key value
  else if negb (Js.includes preview (placeholder key)) then Generated preview
  else if isNumber (toUpperCase key) then SyntaxError (placeholder key)
  else if Js.forallb isPlainChar key && plainValue value
  then Generated (substitute preview field)
  else Unread key value.

(** [generatePreview(message, contact)]: the keys are taken in the order
    of [Object.keys], and a throw ends the loop. *)
Fixpoint generatePreview (message : string) (contact : Contact) : Preview :=
  match contact with
  | [] => Generated message
  | field :: rest =>
      match forEachBody message field with
      | Generated preview => generatePreview preview rest
      | SyntaxError pattern => SyntaxError pattern
      | Unread key value => Unread key value
      end
  end.

(** The pass over the keys when each of them is read as a literal. *)
Definition substituteAll (message : string) (contact : Contact) : string :=
  fold_left substitute contact message.

Definition plainContact (contact : Contact) : bool :=
  List.forallb (fun field => plainKey (fst field) && plainValue (snd field)) contact.

Definition isBrace (c : ascii) : bool :=
  Ascii.eqb c "{"%char || Ascii.eqb c "}"%char.

Definition braceFree (s : string) : bool :=
  Js.forallb (fun c => negb (isBrace c)) s.

Definition noOpen (s : string) : bool :=
  Js.forallb (fun c => negb (Ascii.eqb c "{"%char)) s.

(** A template as the builder's variable buttons produce it: text without
    an opening brace, and placeholders [{FIELD}] whose name holds no
    brace. *)
Inductive Segment : Type :=
| Text (text : string)
| Field (name : string).

Definition Template : Type := list Segment.

Definition placeholderOf (name : string) : string := "{" ++ name ++ "}".

Fixpoint render (template : Template) : string :=
  match template with
  | [] => ""
  | Text text :: rest => text ++ render rest
  | Field name :: rest => placeholderOf name ++ render rest
  end.

Definition wellFormed (template : Template) : bool :=
  List.forallb
    (fun segment =>
       match segment with
       | Text text => noOpen text
       | Field name => braceFree name
       end)
    template.

(** The first field of the contact whose key, in upper case, is the name
    of the placeholder. *)
Definition lookupField (contact : Contact) (name : string) : option (string * string) :=
  find (fun field => String.eqb (toUpperCase (fst field)) name) contact.

(** A placeholder filled in from the contact when the contact has the
    field, and left as it is otherwise. *)
Definition fillSegment (contact : Contact) (segment : Segment) : Segment :=
  match segment with
  | Text text => Text text
  | Field name =>
      match lookupField contact name with
      | Some field => Text (snd field)
      | None => Field name
      end
  end.

Definition fill (contact : Contact) (template : Template) : Template :=
  map (fillSegment contact) template.

Definition openFreeValues (contact : Contact) : bool :=
  List.forallb (fun field => noOpen (snd field)) contact.

End CampaignBuilder.

(** ** Facts about [generatePreview] *)

Module PreviewFacts.
Import CampaignBuilder.

Example generatePreview_fills_fields :
  generatePreview "Hi {NAME}, call {PHONE}"
    [("phone", "+15551234567"); ("name", "Ada")]
  = Generated "Hi Ada, call +15551234567".
Proof. reflexivity. Qed.

(** A column headed [12] gives the key [12]; the placeholder [{12}] in
    the message makes [new RegExp] throw before any later key is
    looked at. *)
Example generatePreview_throws_on_number :
  generatePreview "Room {12}: hi {NAME}" [("12", "4b"); ("name", "Ada")]
  = SyntaxError "{12}"
  /\ generatePreview "Hi {NAME}" [("12", "4b"); ("name", "Ada")]
     = Generated "Hi Ada".
Proof. split; reflexivity. Qed.

Example generatePreview_unread :
  generatePreview "Pay {AMOUNT}" [("amount", "$5")] = Unread "amount" "$5"
  /\ generatePreview "Hi {NAME}" [("amount", "$5"); ("name", "Ada")]
     = Generated "Hi Ada".
Proof. split; reflexivity. Qed.

Example plainKey_samples :
  map plainKey ["first name"; "phone"; "12"; "a.b"] = [true; true; false; false].
Proof. reflexivity. Qed.

Lemma startsWith_app (p t : string) : Js.startsWith (p ++ t) p = true.
Proof.
  induction p as [|a p IH]; simpl; [reflexivity|].
  now rewrite Ascii.eqb_refl, IH.
Qed.

Lemma drop_app (p t : string) : Js.drop (length p) (p ++ t) = t.
Proof.
  induction p as [|a p IH]; simpl; [now destruct t|exact IH].
Qed.

Lemma startsWith_split (s p : string) :
  Js.startsWith s p = true -> s = p ++ Js.drop (length p) s.
Proof.
  revert s. induction p as [|a p IH]; intros s H; simpl in *.
  - now destruct s.
  - destruct s as [|b s]; [discriminate|].
    apply andb_prop in H. destruct H as [Hab Hrest].
    apply Ascii.eqb_eq in Hab. subst b. simpl. f_equal. auto.
Qed.

Lemma includes_cons (c : ascii) (s q : string) :
  Js.includes s q = true -> Js.includes (String c s) q = true.
Proof.
  intros H. simpl. rewrite H. apply orb_true_r.
Qed.

Lemma includes_app_r (r s q : string) :
  Js.includes s q = true -> Js.includes (r ++ s) q = true.
Proof.
  intros H. induction r as [|c r IH]; simpl; [exact H|].
  rewrite IH. apply orb_true_r.
Qed.

Lemma includes_at (a p b : string) : Js.includes (a ++ p ++ b) p = true.
Proof.
  apply includes_app_r. destruct (p ++ b) eqn:E; simpl;
    rewrite <- E, startsWith_app; reflexivity.
Qed.

Lemma replaceFrom_skip (k : nat) (p r s : string) :
  replaceFrom k p r s = replaceAll p r (Js.drop k s).
Proof.
  revert k. induction s as [|c s IH]; intros [|k]; simpl; auto.
Qed.

Lemma replaceAll_match (a : ascii) (p r s : string) :
  Js.startsWith s (String a p) = true ->
  replaceAll (String a p) r s
  = r ++ replaceAll (String a p) r (Js.drop (length (String a p)) s).
Proof.
  intros H. destruct s as [|c s]; [discriminate|].
  unfold replaceAll at 1. simpl replaceFrom. simpl in H. rewrite H.
  rewrite replaceFrom_skip. simpl. now rewrite Nat.sub_0_r.
Qed.

Lemma replaceAll_nomatch (c : ascii) (p r s : string) :
  Js.startsWith (String c s) p = false ->
  replaceAll p r (String c s) = String c (replaceAll p r s).
Proof.
  intros H. unfold replaceAll. simpl replaceFrom. now rewrite H.
Qed.

(** A pattern that opens with a brace matches nowhere inside a stretch
    without opening braces. *)
Lemma startsWith_open (c : ascii) (s p : string) :
  Ascii.eqb c "{"%char = false ->
  Js.startsWith (String c s) (String "{"%char p) = false.
Proof.
  intros H. cbn [Js.startsWith]. rewrite Ascii.eqb_sym, H. reflexivity.
Qed.

Lemma replaceAll_copies (p r z t : string) :
  noOpen z = true ->
  replaceAll (String "{"%char p) r (z ++ t)
  = z ++ replaceAll (String "{"%char p) r t.
Proof.
  induction z as [|c z IH]; intros Hz; simpl in *; [reflexivity|].
  apply andb_prop in Hz. destruct Hz as [Hc Hz].
  apply negb_true_iff in Hc.
  rewrite replaceAll_nomatch by (apply startsWith_open; exact Hc).
  now rewrite IH.
Qed.

Lemma includes_skips (z t p : string) :
  noOpen z = true ->
  Js.includes (z ++ t) (String "{"%char p) = true ->
  Js.includes t (String "{"%char p) = true.
Proof.
  induction z as [|c z IH]; intros Hz H; simpl in Hz; [exact H|].
  apply andb_prop in Hz. destruct Hz as [Hc Hz].
  apply negb_true_iff in Hc.
  change (String c z ++ t) with (String c (z ++ t)) in H.
  cbn [Js.includes] in H.
  rewrite (startsWith_open c (z ++ t) p Hc) in H. simpl in H. auto.
Qed.

Lemma braceFree_noOpen (s : string) : braceFree s = true -> noOpen s = true.
Proof.
  unfold braceFree, noOpen, isBrace.
  induction s as [|c s IH]; simpl; [reflexivity|].
  intros H. apply andb_prop in H. destruct H as [Hc Hs].
  rewrite (IH Hs), andb_true_r.
  apply negb_true_iff in Hc. apply orb_false_elim in Hc.
  destruct Hc as [Hopen _]. now rewrite Hopen.
Qed.

Lemma noOpen_close (s : string) : braceFree s = true -> noOpen (s ++ "}") = true.
Proof.
  intros H. apply braceFree_noOpen in H. unfold noOpen in *.
  induction s as [|c s IH]; simpl in *; [reflexivity|].
  apply andb_prop in H. destruct H as [Hc Hs]. now rewrite Hc, IH.
Qed.

(** Two brace-free names closed by a brace at the same place are the same
    name. *)
Lemma close_prefix_unique (x y t : string) :
  braceFree x = true ->
  braceFree y = true ->
  Js.startsWith (x ++ "}" ++ t) (y ++ "}") = true ->
  x = y.
Proof.
  revert y. induction x as [|a x IH]; intros [|b y] Hx Hy H.
  - reflexivity.
  - exfalso. cbn [append Js.startsWith] in H.
    apply andb_prop in H. destruct H as [Hb _].
    apply Ascii.eqb_eq in Hb. subst b. vm_compute in Hy. discriminate.
  - exfalso. cbn [append Js.startsWith] in H.
    apply andb_prop in H. destruct H as [Ha _].
    apply Ascii.eqb_eq in Ha. subst a. vm_compute in Hx. discriminate.
  - cbn [append Js.startsWith] in H.
    apply andb_prop in H. destruct H as [Hab H].
    apply Ascii.eqb_eq in Hab. subst b.
    unfold braceFree in Hx, Hy. simpl in Hx, Hy.
    apply andb_prop in Hx. apply andb_prop in Hy.
    f_equal. apply IH; [apply Hx|apply Hy|exact H].
Qed.

(** Replacing one placeholder leaves the occurrences of another one. *)
Lemma replaceAll_keeps (x y r : string) :
  braceFree x = true ->
  braceFree y = true ->
  x <> y ->
  forall n s,
    length s <= n ->
    Js.includes s ("{" ++ y ++ "}") = true ->
    Js.includes (replaceAll ("{" ++ x ++ "}") r s) ("{" ++ y ++ "}") = true.
Proof.
  intros Hx Hy Hxy.
  change ("{" ++ x ++ "}") with (String "{"%char (x ++ "}")).
  change ("{" ++ y ++ "}") with (String "{"%char (y ++ "}")).
  induction n as [|n IH]; intros s Hlen Hin.
  - destruct s; [|simpl in Hlen; lia]. discriminate.
  - destruct s as [|c s]; [discriminate|].
    destruct (Js.startsWith (String c s) (String "{"%char (x ++ "}"))) eqn:Hm.
    + rewrite replaceAll_match by exact Hm.
      apply includes_app_r.
      pose proof (startsWith_split _ _ Hm) as Hsplit.
      set (rest := Js.drop (length (String "{"%char (x ++ "}"))) (String c s)) in *.
      apply IH.
      * subst rest. rewrite Js.length_drop. simpl in *. lia.
      * rewrite Hsplit in Hin.
        change (String "{"%char (x ++ "}") ++ rest)
          with (String "{"%char ((x ++ "}") ++ rest)) in Hin.
        cbn [Js.includes] in Hin. apply orb_prop in Hin.
        destruct Hin as [Hhere|Hlater].
        -- exfalso. cbn [Js.startsWith] in Hhere.
           apply andb_prop in Hhere. destruct Hhere as [_ Hhere].
           rewrite Js.append_assoc in Hhere.
           apply Hxy. eapply close_prefix_unique; eauto.
        -- eapply includes_skips; [|exact Hlater].
           apply noOpen_close. exact Hx.
    + rewrite replaceAll_nomatch by exact Hm.
      cbn [Js.includes] in Hin. apply orb_prop in Hin.
      destruct Hin as [Hhere|Hlater].
      * pose proof (startsWith_split _ _ Hhere) as Hsplit.
        set (rest := Js.drop (length (String "{"%char (y ++ "}"))) (String c s)) in *.
        change (String "{"%char (y ++ "}") ++ rest)
          with (String "{"%char ((y ++ "}") ++ rest)) in Hsplit.
        injection Hsplit as Hc Hs. subst c. rewrite Hs.
        rewrite replaceAll_copies by (apply noOpen_close; exact Hy).
        change (String "{"%char
                  ((y ++ "}") ++ replaceAll (String "{"%char (x ++ "}")) r rest))
          with ("" ++ String "{"%char (y ++ "}")
                  ++ replaceAll (String "{"%char (x ++ "}")) r rest).
        apply includes_at.
      * apply includes_cons. apply IH; [simpl in Hlen; lia|exact Hlater].
Qed.

Lemma plainChar_upper_no_brace (c : ascii) :
  isPlainChar c = true -> negb (isBrace (toUpperChar c)) = true.
Proof.
  destruct c as [[] [] [] [] [] [] [] []]; vm_compute; intros H;
    first [reflexivity | discriminate].
Qed.

Lemma plainKey_braceFree (key : string) :
  plainKey key = true -> braceFree (toUpperCase key) = true.
Proof.
  unfold plainKey. intros H. apply andb_prop in H. destruct H as [H _].
  unfold braceFree. induction key as [|c key IH]; [reflexivity|].
  cbn [Js.forallb toUpperCase] in *.
  apply andb_prop in H. destruct H as [Hc Hkey].
  now rewrite (plainChar_upper_no_brace c Hc), IH.
Qed.

Lemma value_or_empty (value : string) :
  (if Js.truthy value then value else "") = value.
Proof. now destruct value. Qed.

Lemma substitute_keeps (preview key value field : string) :
  plainKey key = true ->
  braceFree field = true ->
  toUpperCase key <> field ->
  Js.includes preview ("{" ++ field ++ "}") = true ->
  Js.includes (substitute preview (key, value)) ("{" ++ field ++ "}") = true.
Proof.
  intros Hkey Hfield Hne Hin. unfold substitute, placeholder.
  destruct (Js.includes preview ("{" ++ toUpperCase key ++ "}")); [|exact Hin].
  eapply replaceAll_keeps; eauto. apply plainKey_braceFree. exact Hkey.
Qed.

(** In any message, well formed or not, the placeholder of a field the
    contact lacks survives the whole pass over the contact's keys. *)
Lemma substituteAll_keeps (contact : Contact) (field : string) :
  plainContact contact = true ->
  braceFree field = true ->
  (forall key value, In (key, value) contact -> toUpperCase key <> field) ->
  forall message,
    Js.includes message ("{" ++ field ++ "}") = true ->
    Js.includes (substituteAll message contact) ("{" ++ field ++ "}") = true.
Proof.
  intros Hplain Hfield. unfold substituteAll.
  induction contact as [|[key value] contact IH]; intros Hmissing message Hin;
    [exact Hin|].
  simpl in Hplain. apply andb_prop in Hplain. destruct Hplain as [Hkv Hrest].
  apply andb_prop in Hkv. destruct Hkv as [Hkey _].
  cbn [fold_left]. apply IH.
  - exact Hrest.
  - intros k v Hk. apply (Hmissing k v). right. exact Hk.
  - apply substitute_keeps; auto. apply (Hmissing key value). left. reflexivity.
Qed.

(** The leftmost placeholder of the one field of a contact is replaced by
    its value, and the pass goes on with the rest of the message. *)
Lemma substituteAll_one_field (before after key value : string) :
  noOpen before = true ->
  substituteAll (before ++ placeholder key ++ after) [(key, value)]
  = before ++ value ++ replaceAll (placeholder key) value after.
Proof.
  intros Hbefore. unfold substituteAll. cbn [fold_left substitute].
  rewrite includes_at, value_or_empty.
  unfold placeholder.
  change ("{" ++ toUpperCase key ++ "}")
    with (String "{"%char (toUpperCase key ++ "}")).
  rewrite replaceAll_copies by exact Hbefore.
  rewrite replaceAll_match by apply startsWith_app.
  now rewrite drop_app.
Qed.

Lemma replaceAll_absent (p r s : string) :
  Js.includes s p = false -> replaceAll p r s = s.
Proof.
  induction s as [|c s IH]; intros H; [reflexivity|].
  cbn [Js.includes] in H. apply orb_false_elim in H. destruct H as [Hhere Hlater].
  rewrite replaceAll_nomatch by exact Hhere. now rewrite IH.
Qed.

(** The guard of the [forEach] body changes nothing: without an
    occurrence the replacement is the identity. *)
Lemma substitute_replaceAll (preview key value : string) :
  substitute preview (key, value) = replaceAll (placeholder key) value preview.
Proof.
  unfold substitute. rewrite value_or_empty.
  destruct (Js.includes preview (placeholder key)) eqn:H; [reflexivity|].
  symmetry. now apply replaceAll_absent.
Qed.

(** One key of the contact, as it acts on a template. *)
Definition substituteField (name value : string) (segment : Segment) : Segment :=
  match segment with
  | Text text => Text text
  | Field name' => if String.eqb name' name then Text value else Field name'
  end.

Lemma replaceAll_render (name value : string) (template : Template) :
  braceFree name = true ->
  wellFormed template = true ->
  replaceAll (placeholderOf name) value (render template)
  = render (map (substituteField name value) template).
Proof.
  intros Hname. unfold placeholderOf.
  change ("{" ++ name ++ "}") with (String "{"%char (name ++ "}")).
  induction template as [|[text|name'] rest IH]; intros Hwf;
    [reflexivity| |];
    cbn [wellFormed List.forallb] in Hwf; apply andb_prop in Hwf;
    destruct Hwf as [Hseg Hrest]; cbn [map substituteField render].
  - rewrite replaceAll_copies by exact Hseg. now rewrite IH.
  - unfold placeholderOf.
    destruct (String.eqb_spec name' name) as [->|Hne].
    + change ("{" ++ name ++ "}") with (String "{"%char (name ++ "}")).
      rewrite replaceAll_match by apply startsWith_app.
      rewrite drop_app. now rewrite IH.
    + change (("{" ++ name' ++ "}") ++ render rest)
        with (String "{"%char ((name' ++ "}") ++ render rest)).
      rewrite replaceAll_nomatch.
      * rewrite replaceAll_copies by (apply noOpen_close; exact Hseg).
        now rewrite IH.
      * destruct (Js.startsWith _ _) eqn:Hm; [|reflexivity].
        exfalso. cbn [Js.startsWith] in Hm.
        apply andb_prop in Hm. destruct Hm as [_ Hm].
        rewrite Js.append_assoc in Hm.
        apply Hne. eapply close_prefix_unique; eauto.
Qed.

Lemma substituteField_wellFormed (name value : string) (template : Template) :
  noOpen value = true ->
  wellFormed template = true ->
  wellFormed (map (substituteField name value) template) = true.
Proof.
  intros Hvalue. induction template as [|[text|name'] rest IH]; intros Hwf;
    [reflexivity| |];
    cbn [wellFormed List.forallb] in Hwf; apply andb_prop in Hwf;
    destruct Hwf as [Hseg Hrest]; cbn [map substituteField wellFormed List.forallb].
  - rewrite Hseg. now apply IH.
  - destruct (String.eqb name' name); [rewrite Hvalue|rewrite Hseg]; now apply IH.
Qed.

Lemma fill_cons (key value : string) (contact : Contact) (template : Template) :
  fill contact (map (substituteField (toUpperCase key) value) template)
  = fill ((key, value) :: contact) template.
Proof.
  unfold fill. rewrite map_map. apply map_ext. intros [text|name]; [reflexivity|].
  cbn [substituteField fillSegment lookupField find fst snd].
  rewrite (String.eqb_sym (toUpperCase key) name).
  destruct (String.eqb name (toUpperCase key)); reflexivity.
Qed.

Lemma fill_nil (template : Template) : fill [] template = template.
Proof.
  unfold fill. rewrite <- (map_id template) at 2.
  apply map_ext. now intros [text|name].
Qed.

Lemma substituteAll_fills (contact : Contact) (template : Template) :
  plainContact contact = true ->
  openFreeValues contact = true ->
  wellFormed template = true ->
  substituteAll (render template) contact = render (fill contact template).
Proof.
  unfold substituteAll. revert template.
  induction contact as [|[key value] contact IH]; intros template Hplain Hvalues Hwf.
  - now rewrite fill_nil.
  - cbn [plainContact openFreeValues List.forallb fst snd] in Hplain, Hvalues.
    apply andb_prop in Hplain. destruct Hplain as [Hfield Hplain].
    apply andb_prop in Hfield. destruct Hfield as [Hkey _].
    apply andb_prop in Hvalues. destruct Hvalues as [Hvalue Hvalues].
    cbn [fold_left]. rewrite substitute_replaceAll.
    change (placeholder key) with (placeholderOf (toUpperCase key)).
    rewrite replaceAll_render by (auto using plainKey_braceFree).
    rewrite IH by (auto using substituteField_wellFormed).
    now rewrite fill_cons.
Qed.

Lemma plainChar_ascii (c : ascii) : isPlainChar c = true -> isAscii c = true.
Proof.
  destruct c as [[] [] [] [] [] [] [] []]; vm_compute; intros H;
    first [reflexivity | discriminate].
Qed.

Lemma plain_ascii (key : string) :
  Js.forallb isPlainChar key = true -> Js.forallb isAscii key = true.
Proof.
  induction key as [|c key IH]; [reflexivity|].
  cbn [Js.forallb]. intros H. apply andb_prop in H. destruct H as [Hc Hkey].
  now rewrite (plainChar_ascii c Hc), IH.
Qed.

Lemma isDigit_toUpperChar (c : ascii) : Js.isDigit (toUpperChar c) = Js.isDigit c.
Proof.
  destruct c as [[] [] [] [] [] [] [] []]; reflexivity.
Qed.

Lemma digit_toUpperChar (c : ascii) : Js.isDigit c = true -> toUpperChar c = c.
Proof.
  destruct c as [[] [] [] [] [] [] [] []]; vm_compute; intros H;
    first [reflexivity | discriminate].
Qed.

(** Upper case makes no number and spoils none. *)
Lemma isNumber_toUpperCase (key : string) :
  isNumber (toUpperCase key) = isNumber key.
Proof.
  unfold isNumber. f_equal; [now destruct key|].
  induction key as [|c key IH]; [reflexivity|].
  cbn [toUpperCase Js.forallb]. now rewrite isDigit_toUpperChar, IH.
Qed.

Lemma number_toUpperCase (number : string) :
  isNumber number = true -> toUpperCase number = number.
Proof.
  unfold isNumber. intros H. apply andb_prop in H. destruct H as [_ H].
  induction number as [|c number IH]; [reflexivity|].
  cbn [Js.forallb toUpperCase] in *. apply andb_prop in H. destruct H as [Hc Hrest].
  now rewrite (digit_toUpperChar c Hc), IH.
Qed.

Lemma number_ascii (number : string) :
  isNumber number = true -> Js.forallb isAscii number = true.
Proof.
  unfold isNumber. intros H. apply andb_prop in H. destruct H as [_ H].
  apply plain_ascii. induction number as [|c number IH]; [reflexivity|].
  cbn [Js.forallb] in *. apply andb_prop in H. destruct H as [Hc Hrest].
  rewrite (IH Hrest), andb_true_r. unfold isPlainChar. rewrite Hc.
  now rewrite !orb_true_r.
Qed.

(** On a plain key and a plain value the body is the literal
    substitution. *)
Lemma forEachBody_plain (preview key value : string) :
  plainKey key = true ->
  plainValue value = true ->
  forEachBody preview (key, value) = Generated (substitute preview (key, value)).
Proof.
  unfold plainKey. intros Hkey Hvalue.
  apply andb_prop in Hkey. destruct Hkey as [Hplain Hnumber].
  unfold forEachBody. rewrite (plain_ascii key Hplain). cbn [negb].
  rewrite isNumber_toUpperCase, Hplain, Hvalue.
  apply negb_true_iff in Hnumber. rewrite Hnumber. cbn [andb].
  unfold substitute.
  destruct (Js.includes preview (placeholder key)); reflexivity.
Qed.

Lemma generatePreview_plain (contact : Contact) :
  plainContact contact = true ->
  forall message,
    generatePreview message contact = Generated (substituteAll message contact).
Proof.
  unfold substituteAll.
  induction contact as [|[key value] contact IH]; intros Hplain message;
    [reflexivity|].
  cbn [plainContact List.forallb fst snd] in Hplain.
  apply andb_prop in Hplain. destruct Hplain as [Hfield Hplain].
  apply andb_prop in Hfield. destruct Hfield as [Hkey Hvalue].
  cbn [generatePreview fold_left]. rewrite (forEachBody_plain _ _ _ Hkey Hvalue).
  now apply IH.
Qed.

(** The keys after a stretch of keys that gave a preview go on from that
    preview. *)
Lemma generatePreview_app (first rest : Contact) (message preview : string) :
  generatePreview message first = Generated preview ->
  generatePreview message (first ++ rest)%list = generatePreview preview rest.
Proof.
  revert message. induction first as [|field first IH]; intros message H.
  - cbn in H. injection H as <-. reflexivity.
  - cbn [generatePreview app] in *.
    destruct (forEachBody message field) as [next| |]; try discriminate.
    now apply IH.
Qed.

(** A number is the upper case of no plain key. *)
Lemma lookupField_number (contact : Contact) (number : string) :
  plainContact contact = true ->
  isNumber number = true ->
  lookupField contact number = None.
Proof.
  intros Hplain Hnumber. unfold lookupField.
  induction contact as [|[key value] contact IH]; [reflexivity|].
  cbn [plainContact List.forallb fst snd] in Hplain.
  apply andb_prop in Hplain. destruct Hplain as [Hfield Hplain].
  apply andb_prop in Hfield. destruct Hfield as [Hkey _].
  cbn [find fst].
  destruct (String.eqb_spec (toUpperCase key) number) as [Heq|_]; [|now apply IH].
  exfalso. unfold plainKey in Hkey. apply andb_prop in Hkey.
  destruct Hkey as [_ Hkey]. apply negb_true_iff in Hkey.
  rewrite <- isNumber_toUpperCase, Heq, Hnumber in Hkey. discriminate.
Qed.

Lemma render_includes (template : Template) (name : string) :
  In (Field name) template ->
  Js.includes (render template) (placeholderOf name) = true.
Proof.
  induction template as [|segment template IH]; intros Hin; [contradiction|].
  destruct Hin as [->|Hin].
  - cbn [render]. rewrite <- (Js.append_nil_r (render template)).
    change (placeholderOf name ++ render template ++ "")
      with ("" ++ placeholderOf name ++ render template ++ "").
    rewrite Js.append_nil_r. apply (includes_at "" (placeholderOf name)).
  - destruct segment as [text|name']; cbn [render];
      apply includes_app_r; auto.
Qed.

(** C8 (as the code has it). Take a template made of text without an
    opening brace and of placeholders, and a recipient whose keys and
    values [generatePreview] reads literally.  The message generated for
    the recipient is the template with every placeholder whose field the
    recipient has replaced by the recipient's value, which blanks it when
    the value is empty, and with every placeholder whose field is absent
    from the recipient's attribute map left in place: no recipient is
    skipped for a missing field.  A message is not generated in every
    case, though: when the recipient has, after these keys, a key made of
    digits whose placeholder is in the template, [new RegExp] throws a
    [SyntaxError] and [generatePreview] returns nothing. *)
Theorem generatePreview_fills_template (contact : Contact) (template : Template) :
  plainContact contact = true ->
  openFreeValues contact = true ->
  wellFormed template = true ->
  generatePreview (render template) contact
  = Generated (render (fill contact template))
  /\
  (forall number value rest,
      isNumber number = true ->
      In (Field number) template ->
      generatePreview (render template) (contact ++ (number, value) :: rest)%list
      = SyntaxError (placeholderOf number)).
Proof.
  intros Hplain Hvalues Hwf.
  assert (Hfilled : generatePreview (render template) contact
                    = Generated (render (fill contact template))).
  { rewrite (generatePreview_plain contact Hplain).
    now rewrite substituteAll_fills. }
  split; [exact Hfilled|].
  intros number value rest Hnumber Hin.
  rewrite (generatePreview_app _ _ _ _ Hfilled).
  cbn [generatePreview forEachBody].
  rewrite (number_ascii number Hnumber). cbn [negb].
  unfold placeholder. rewrite (number_toUpperCase number Hnumber).
  fold (placeholderOf number).
  rewrite render_includes, Hnumber; [reflexivity|].
  unfold fill. apply in_map_iff. exists (Field number). split; [|exact Hin].
  cbn [fillSegment]. now rewrite (lookupField_number contact number Hplain Hnumber).
Qed.

(** A recipient with a phone number and an empty name, and no code. *)
Definition recipient : Contact := [("phone", "+15551234567"); ("name", "")].

Definition codeTemplate : Template :=
  [Text "Hi "; Field "NAME"; Text ", your code is "; Field "CODE"].

Lemma generatePreview_fills_template_witness :
  generatePreview (render codeTemplate) recipient
  = Generated (render (fill recipient codeTemplate))
  /\
  (forall number value rest,
      isNumber number = true ->
      In (Field number) codeTemplate ->
      generatePreview (render codeTemplate) (recipient ++ (number, value) :: rest)%list
      = SyntaxError (placeholderOf number)).
Proof.
  apply (generatePreview_fills_template recipient codeTemplate); reflexivity.
Defined.

Example fill_codeTemplate :
  fill recipient codeTemplate
  = [Text "Hi "; Text ""; Text ", your code is "; Field "CODE"].
Proof. reflexivity. Qed.

(** The recipient has no [code] field and an empty [name]: a message is
    generated all the same, with [{CODE}] left in place and [{NAME}]
    blanked. *)
Lemma generatePreview_emits_with_missing_field :
  generatePreview "Hi {NAME}, your code is {CODE}" recipient
  = Generated "Hi , your code is {CODE}"
  /\ existsb (String.eqb "code") (map fst recipient) = false.
Proof.
  split; reflexivity.
Qed.

End PreviewFacts.

(** ** More on [SMSService]: cleaning, the shape of the parts, results *)

From Stdlib Require DecimalNat DecimalFacts.

Module ServiceMore.
Import SMSService.

(** The characters [cleanPhoneNumber] keeps. *)
Definition kept (c : ascii) : bool := Js.isDigit c || isPlus c.

Lemma substringFrom_tail (c : ascii) (s : string) :
  Js.substringFrom (String c s) 1 = s.
Proof.
  unfold Js.substringFrom, Js.substring. cbn [length].
  replace (Nat.min 1 (S (length s))) with 1 by lia.
  replace (Nat.min (S (length s)) (S (length s))) with (S (length s)) by lia.
  replace (Nat.min 1 (S (length s))) with 1 by lia.
  replace (Nat.max 1 (S (length s)) - 1) with (length s) by lia.
  cbn [Js.drop]. apply Js.take_all. lia.
Qed.

Lemma forallb_filter (f : ascii -> bool) (s : string) :
  Js.forallb f (Js.filter f s) = true.
Proof.
  induction s as [|c s IH]; [reflexivity|].
  cbn [Js.filter]. destruct (f c) eqn:Hc; [|exact IH].
  cbn [Js.forallb]. now rewrite Hc, IH.
Qed.

Lemma filter_all (f : ascii -> bool) (s : string) :
  Js.forallb f s = true -> Js.filter f s = s.
Proof.
  induction s as [|c s IH]; [reflexivity|].
  cbn [Js.forallb Js.filter]. intros H. apply andb_prop in H.
  destruct H as [Hc Hs]. now rewrite Hc, IH.
Qed.

(** X2. [cleanPhoneNumber] returns the digits and plus signs of its input,
    in order: putting the leading plus sign back changes nothing, plus
    signs inside the number are kept as well, and cleaning a cleaned number
    gives it back. *)
Theorem cleanPhoneNumber_keeps_digits_and_plus (phoneNumber : string) :
  cleanPhoneNumber phoneNumber = Js.filter kept phoneNumber /\
  Js.forallb kept (cleanPhoneNumber phoneNumber) = true /\
  cleanPhoneNumber (cleanPhoneNumber phoneNumber) = cleanPhoneNumber phoneNumber.
Proof.
  assert (Hfilter : forall p, cleanPhoneNumber p = Js.filter kept p).
  { intros p. unfold cleanPhoneNumber. fold kept.
    destruct p as [|c p]; [reflexivity|].
    cbn [Js.startsWith]. destruct (Ascii.eqb_spec "+"%char c) as [<-|Hne]; cbn [andb].
    - cbn [Js.filter]. change (kept "+"%char) with true. cbv iota.
      now rewrite substringFrom_tail.
    - reflexivity. }
  split; [apply Hfilter|]. rewrite !Hfilter. split.
  - apply forallb_filter.
  - apply filter_all, forallb_filter.
Qed.

(** The number of segments of [maxLength] characters that [n] characters
    fill. *)
Definition segments (n maxLength : nat) : nat := (n + maxLength - 1) / maxLength.

Lemma segments_zero (maxLength : nat) : 0 < maxLength -> segments 0 maxLength = 0.
Proof.
  intros H. unfold segments. apply Nat.div_small. lia.
Qed.

Lemma segments_step (n maxLength : nat) :
  0 < maxLength -> 0 < n ->
  segments n maxLength = S (segments (n - maxLength) maxLength).
Proof.
  intros Hm Hn. unfold segments.
  destruct (Nat.le_gt_cases n maxLength) as [Hle|Hgt].
  - replace (n - maxLength) with 0 by lia.
    rewrite (Nat.div_small (0 + maxLength - 1)) by lia.
    replace (n + maxLength - 1) with ((n - 1) + 1 * maxLength) by lia.
    rewrite Nat.div_add by lia. rewrite Nat.div_small by lia. reflexivity.
  - replace (n + maxLength - 1)
      with ((n - maxLength + maxLength - 1) + 1 * maxLength) by lia.
    rewrite Nat.div_add by lia. lia.
Qed.

Lemma segments_positive (n maxLength : nat) :
  0 < maxLength -> 0 < segments n maxLength -> 0 < n.
Proof.
  intros Hm H. destruct n; [|lia]. rewrite segments_zero in H; lia.
Qed.

(** All parts but the last are full. *)
Definition fullButLast (maxLength : nat) (parts : list string) : Prop :=
  forall k, S k < List.length parts -> length (nth k parts "") = maxLength.

(** The loop, entered at index [i], appends as many parts as segments are
    left, none of them empty and all but the last one full. *)
Lemma splitLoop_shape (message : string) (maxLength : nat) :
  0 < maxLength ->
  forall fuel i parts,
    length message - i <= fuel ->
    exists result,
      splitLoop fuel message maxLength i parts = Some (parts ++ result)%list /\
      List.length result = segments (length message - i) maxLength /\
      Forall (fun part => part <> "") result /\
      fullButLast maxLength result.
Proof.
  intros Hmax. induction fuel as [|fuel IH]; intros i parts Hfuel; simpl.
  - destruct (Nat.ltb_spec i (length message)) as [Hlt|Hge]; [lia|].
    exists []. rewrite app_nil_r.
    replace (length message - i) with 0 by lia. rewrite segments_zero by lia.
    repeat split; [constructor|]. intros k Hk. simpl in Hk. lia.
  - destruct (Nat.ltb_spec i (length message)) as [Hlt|Hge].
    + destruct (IH (i + maxLength)
                  (parts ++ [Js.substring message i (i + maxLength)])%list)
        as (result & Hrun & Hlen & Hnonempty & Hfull); [lia|].
      assert (Hpart : length (Js.substring message i (i + maxLength))
                      = Nat.min maxLength (length message - i)).
      { rewrite Js.substring_window by lia.
        now rewrite Js.length_take, Js.length_drop. }
      exists (Js.substring message i (i + maxLength) :: result).
      split; [rewrite Hrun, <- app_assoc; reflexivity|]. split; [|split].
      * cbn [List.length]. rewrite Hlen.
        rewrite (segments_step (length message - i)) by lia.
        f_equal. f_equal. lia.
      * constructor; [|exact Hnonempty].
        intros Hempty. rewrite Hempty in Hpart. simpl in Hpart. lia.
      * intros [|k] Hk; cbn [nth List.length] in *.
        -- rewrite Hpart.
           assert (0 < length message - (i + maxLength)).
           { apply (segments_positive _ maxLength); lia. }
           lia.
        -- apply Hfull. lia.
    + exists []. rewrite app_nil_r.
      replace (length message - i) with 0 by lia. rewrite segments_zero by lia.
      repeat split; [constructor|]. intros k Hk. simpl in Hk. lia.
Qed.

Lemma splitLongMessage_shape (message : string) (maxLength : nat) :
  0 < maxLength ->
  maxLength < length message ->
  exists parts,
    splitLongMessage message maxLength = Some parts /\
    List.length parts = segments (length message) maxLength /\
    Forall (fun part => part <> "") parts /\
    fullButLast maxLength parts.
Proof.
  intros Hmax Hlong. unfold splitLongMessage.
  destruct (Nat.leb_spec (length message) maxLength) as [Hle|_]; [lia|].
  destruct (splitLoop_shape message maxLength Hmax (length message) 0 [])
    as (result & Hrun & Hlen & Hnonempty & Hfull); [lia|].
  exists result. rewrite Nat.sub_0_r in Hlen. auto.
Qed.

(** X4. A message longer than the segment size is cut into as many parts
    as segments it fills: every part but the last has exactly [maxLength]
    characters and no part is empty. *)
Theorem splitLongMessage_fills_segments (message : string) (maxLength : nat) :
  0 < maxLength ->
  maxLength < length message ->
  exists parts,
    splitLongMessage message maxLength = Some parts /\
    List.length parts = segments (length message) maxLength /\
    Forall (fun part => part <> "") parts /\
    fullButLast maxLength parts.
Proof.
  intros Hmax Hlong. now apply splitLongMessage_shape.
Qed.

Lemma splitLongMessage_fills_segments_witness :
  exists parts,
    splitLongMessage "abcdefg" 3 = Some parts /\
    List.length parts = segments (length "abcdefg") 3 /\
    Forall (fun part => part <> "") parts /\
    fullButLast 3 parts.
Proof.
  apply (splitLongMessage_fills_segments "abcdefg" 3); simpl; lia.
Defined.

Lemma ofNat_not_empty (n : nat) : 1 <= length (Js.ofNat n).
Proof.
  unfold Js.ofNat.
  assert (Hnonnil : Nat.to_uint n <> Decimal.Nil).
  { rewrite <- (DecimalNat.Unsigned.of_to n) at 1.
    rewrite DecimalNat.Unsigned.to_of. apply DecimalFacts.unorm_nonnil. }
  destruct (Nat.to_uint n); [contradiction| | | | | | | | | |]; simpl; lia.
Qed.

(** The label costs at least six characters. *)
Lemma partMessage_longer (total i : nat) (part : string) :
  1 < total -> length part + 6 <= length (partMessage total i part).
Proof.
  intros Htotal. unfold partMessage.
  destruct (Nat.ltb_spec 1 total) as [_|]; [|lia].
  rewrite !Js.length_append.
  pose proof (ofNat_not_empty (i + 1)). pose proof (ofNat_not_empty total).
  simpl. lia.
Qed.

(** The first part of a long message is a full segment, and the parts
    still make up the message. *)
Lemma splitLongMessage_first_full (message : string) :
  160 < length message ->
  exists first rest,
    splitLongMessage message 160 = Some (first :: rest) /\
    length first = 160 /\
    1 < List.length (first :: rest) /\
    Js.join (first :: rest) = message.
Proof.
  intros Hlong.
  destruct (splitLongMessage_shape message 160 ltac:(lia) Hlong)
    as (parts & Hsplit & Hlen & _ & Hfull).
  assert (Htwo : 2 <= List.length parts).
  { rewrite Hlen. unfold segments.
    replace (length message + 160 - 1) with ((length message - 161) + 2 * 160) by lia.
    rewrite Nat.div_add by lia. lia. }
  destruct parts as [|first rest]; [simpl in Htwo; lia|].
  exists first, rest. split; [exact Hsplit|]. split; [apply (Hfull 0); lia|].
  split; [lia|].
  unfold splitLongMessage in Hsplit.
  destruct (Nat.leb_spec (length message) 160) as [|_]; [lia|].
  destruct (SplitFacts.splitLoop_total message 160 ltac:(lia) (length message) 0 [])
    as (result & Hrun & Hjoin & _); [lia|].
  rewrite Hrun in Hsplit. injection Hsplit as <-. exact Hjoin.
Qed.

(** X5. The label is added after the split: the first part of a message
    longer than 160 characters has 160 characters, so the text built for
    it, label included, has at least 166 and is itself longer than one
    segment. *)
Theorem sendLongSMS_label_exceeds_segment (message : string) :
  160 < length message ->
  exists first rest,
    splitLongMessage message 160 = Some (first :: rest) /\
    length first = 160 /\
    166 <= length (partMessage (List.length (first :: rest)) 0 first).
Proof.
  intros Hlong.
  destruct (splitLongMessage_first_full message Hlong)
    as (first & rest & Hsplit & Hfirst & Hparts & _).
  exists first, rest. split; [exact Hsplit|]. split; [exact Hfirst|].
  pose proof (partMessage_longer (List.length (first :: rest)) 0 first Hparts).
  lia.
Qed.

Lemma sendLongSMS_label_exceeds_segment_witness :
  exists first rest,
    splitLongMessage (Js.repeat "a" 200) 160 = Some (first :: rest) /\
    length first = 160 /\
    166 <= length (partMessage (List.length (first :: rest)) 0 first).
Proof.
  apply (sendLongSMS_label_exceeds_segment (Js.repeat "a" 200)).
  apply Nat.ltb_lt. reflexivity.
Defined.

Section Results.

Variable World : Type.
Variable platform : Platform World.

(** X3. What [sendSMS] returns says what happened: a success carries a
    non-empty message id and no error, and comes from exactly one call
    that the native module accepted; a failure carries an error text and
    no message id; and no call of [sendSMS] reaches the native module more
    than once. *)
Theorem sendSMS_result_tells_outcome (phoneNumber message : string)
  (st : State World) :
  let result := fst (sendSMS World platform phoneNumber message st) in
  let st' := snd (sendSMS World platform phoneNumber message st) in
  (success result = true ->
   exists id call,
     messageId result = Some id /\ id <> "" /\ error result = None /\
     calls st' = (calls st ++ [call])%list /\
     SendFacts.accepted call = true)
  /\
  (success result = false ->
   messageId result = None /\ exists reason, error result = Some reason)
  /\
  (calls st' = calls st \/ exists call, calls st' = (calls st ++ [call])%list).
Proof.
  unfold sendSMS.
  destruct (nativeModule platform) as [native|]; cbn zeta;
    [|cbn; repeat split; try discriminate; eauto].
  destruct (isValidPhoneNumber (cleanPhoneNumber phoneNumber));
    cbn [negb]; cbv iota;
    [|cbn; repeat split; try discriminate; eauto].
  destruct (negb (Js.truthy message) || (length (Js.trim message) =? 0));
    [cbn; repeat split; try discriminate; eauto|].
  destruct (native _ _ _) as [[mid|e] w]; cbn [fst snd].
  - split; [|split; [discriminate|cbn; eauto]].
    intros _. eexists. eexists. split; [reflexivity|].
    split; [|repeat split].
    destruct mid as [[|c m]|]; discriminate.
  - split; [discriminate|]. split; [|cbn; eauto].
    intros _. cbn. eauto.
Qed.

(** X6. A message of at most 160 characters goes out through
    [sendLongSMS] exactly as through [sendSMS]: one result, no label in
    front of the text and no pause. *)
Theorem sendLongSMS_short_is_sendSMS (phoneNumber message : string)
  (st : State World) :
  length message <= 160 ->
  sendLongSMS World platform phoneNumber message st
  = Some ([fst (sendSMS World platform phoneNumber message st)],
          snd (sendSMS World platform phoneNumber message st)).
Proof.
  intros Hshort. unfold sendLongSMS, splitLongMessage.
  destruct (Nat.leb_spec (length message) 160) as [_|]; [|lia].
  cbn [List.length sendParts partMessage Nat.ltb Nat.leb Nat.sub Nat.add app].
  destruct (sendSMS World platform phoneNumber message st) as [result st1].
  reflexivity.
Qed.

(** The loop over the parts when no send can reach the native module. *)
Lemma sendParts_all_rejected (phoneNumber reason : string) (total : nat) :
  (forall text st,
      sendSMS World platform phoneNumber text st = (failure reason, st)) ->
  forall parts i results st,
  exists st',
    sendParts World platform phoneNumber total i parts results st
    = ((results ++ List.repeat (failure reason) (List.length parts))%list, st') /\
    calls st' = calls st.
Proof.
  intros Hfail. induction parts as [|part rest IH]; intros i results st.
  - exists st. cbn. now rewrite app_nil_r.
  - cbn [sendParts]. rewrite Hfail.
    match goal with
    | |- context [sendParts _ _ _ _ _ _ _ ?s] =>
        destruct (IH (i + 1) (results ++ [failure reason])%list s)
          as (st' & Hrun & Hcalls)
    end.
    exists st'. rewrite Hrun. split.
    + cbn [List.length List.repeat]. now rewrite <- app_assoc.
    + rewrite Hcalls. now destruct (i <? total - 1).
Qed.

(** X7. With a recipient that fails the format check, [sendLongSMS]
    still walks through every part: it returns one failure per part, all
    with the same reason, and the native module is never called. *)
Theorem sendLongSMS_invalid_number_fails_every_part
  (phoneNumber message : string) (st : State World) :
  isValidPhoneNumber (cleanPhoneNumber phoneNumber) = false ->
  exists parts reason st',
    splitLongMessage message 160 = Some parts /\
    sendLongSMS World platform phoneNumber message st
    = Some (List.repeat (failure reason) (List.length parts), st') /\
    calls st' = calls st.
Proof.
  intros Hinvalid.
  destruct (SplitFacts.splitLongMessage_default_total message) as [parts Hsplit].
  assert (Hfail : exists reason, forall text st0,
             sendSMS World platform phoneNumber text st0 = (failure reason, st0)).
  { unfold sendSMS. destruct (nativeModule platform); [|eauto].
    rewrite Hinvalid. cbn. eauto. }
  destruct Hfail as [reason Hfail].
  destruct (sendParts_all_rejected phoneNumber reason (List.length parts) Hfail
              parts 0 [] st) as (st' & Hrun & Hcalls).
  exists parts, reason, st'. unfold sendLongSMS. rewrite Hsplit, Hrun. auto.
Qed.

End Results.

Lemma sendLongSMS_short_is_sendSMS_witness :
  sendLongSMS nat SendFacts.flakyPhone "+15551234567" "On its way" (mkState 0 [])
  = Some ([fst (sendSMS nat SendFacts.flakyPhone "+15551234567" "On its way"
                  (mkState 0 []))],
          snd (sendSMS nat SendFacts.flakyPhone "+15551234567" "On its way"
                 (mkState 0 []))).
Proof.
  apply (sendLongSMS_short_is_sendSMS nat SendFacts.flakyPhone
           "+15551234567" "On its way" (mkState 0 [])).
  simpl. lia.
Defined.

Lemma sendLongSMS_invalid_number_fails_every_part_witness :
  exists parts reason st',
    splitLongMessage (Js.repeat "a" 200) 160 = Some parts /\
    sendLongSMS nat SendFacts.flakyPhone "12-3" (Js.repeat "a" 200) (mkState 0 [])
    = Some (List.repeat (failure reason) (List.length parts), st') /\
    calls st' = calls (mkState 0 ([] : list NativeCall)).
Proof.
  apply (sendLongSMS_invalid_number_fails_every_part nat SendFacts.flakyPhone
           "12-3" (Js.repeat "a" 200) (mkState 0 [])).
  reflexivity.
Defined.

End ServiceMore.

(** ** More on the bridge application: listeners, the log, polling *)

Module BridgeMore.
Import BridgeApp.

(** What the native module puts into an [smsSent] or [smsError] event. *)
Record SmsEvent : Type := mkSmsEvent {
  eventMessageId : string;
  eventError : string;
  eventPhoneNumber : string
}.

(** What the poll gets back: the messages of a response that is [ok], or
    nothing for any other response. *)
Definition PollAnswer : Type := option (list SMSMessage).

Section App.

Variable World : Type.
Variable platform : Platform World.
Variable config : Config.

(** [fetch(`${serverUrl}/api/devices/${deviceId}/messages`)] followed by
    [response.json()]. *)
Variable fetchMessages : string -> World -> Js.Completion PollAnswer * World.

(** The [smsSent] listener of [setupEventListeners]. *)
Definition onSmsSent (data : SmsEvent) (st : AppState World) : AppState World :=
  setMessageQueue World (updateMessageStatus (eventMessageId data) ReportSent)
    (addLog World platform ("SMS sent successfully: " ++ eventMessageId data) st).

(** The [smsError] listener: it passes the phone number as message id. *)
Definition onSmsError (data : SmsEvent) (st : AppState World) : AppState World :=
  setMessageQueue World (updateMessageStatus (eventPhoneNumber data) ReportFailed)
    (addLog World platform ("SMS failed: " ++ eventError data) st).

(** The [for] loop of the poll: the first [sendSMS] that throws ends it. *)
Fixpoint sendAll (messages : list SMSMessage) (st : AppState World)
  : Js.Completion unit * AppState World :=
  match messages with
  | [] => (Js.Returned tt, st)
  | message :: rest =>
      match sendSMS World platform config message st with
      | (Js.Returned _, st1) => sendAll rest st1
      | (Js.Threw error, st1) => (Js.Threw error, st1)
      end
  end.

Definition messagesUrl : string :=
  serverUrl config ++ "/api/devices/"
  ++ match deviceId config with Some d => d | None => "undefined" end
  ++ "/messages".

Definition withWorld (w : World) (st : AppState World) : AppState World :=
  mkAppState (messageQueue st) (logs st) w (nativeCalls st) (requests st).

(** One tick of the interval of [startMessagePolling]; [isConnected] is
    the value its closure holds.  The flag returned tells whether the tick
    cleared the interval. *)
Definition pollTick (isConnected : bool) (st : AppState World)
  : AppState World * bool :=
  if negb isConnected then (st, true)
  else
    match fetchMessages messagesUrl (world st) with
    | (Js.Threw error, w) =>
        (addLog World platform ("Polling error: " ++ Js.toString error)
           (withWorld w st), false)
    | (Js.Returned None, w) => (withWorld w st, false)
    | (Js.Returned (Some messages), w) =>
        match sendAll messages (withWorld w st) with
        | (Js.Returned _, st1) => (st1, false)
        | (Js.Threw error, st1) =>
            (addLog World platform ("Polling error: " ++ Js.toString error) st1,
             false)
        end
    end.

(** What the application does, one event after the other. *)
Inductive Action : Type :=
| Send (message : SMSMessage)
| SmsSent (data : SmsEvent)
| SmsError (data : SmsEvent)
| Poll (isConnected : bool).

Definition act (a : Action) (st : AppState World) : AppState World :=
  match a with
  | Send message => snd (sendSMS World platform config message st)
  | SmsSent data => onSmsSent data st
  | SmsError data => onSmsError data st
  | Poll isConnected => fst (pollTick isConnected st)
  end.

Definition run (actions : list Action) (st : AppState World) : AppState World :=
  fold_left (fun st a => act a st) actions st.

End App.

End BridgeMore.

(** ** Facts about the listeners, the log and polling *)

Module BridgeMoreFacts.
Import BridgeApp BridgeMore.

(** A queue entry with its status forgotten. *)
Definition forget (m : SMSMessage) : SMSMessage := withStatus m Pending.

Lemma forget_updateMessageStatus (messageId : string) (r : Report)
  (queue : list SMSMessage) :
  map forget (updateMessageStatus messageId r queue) = map forget queue.
Proof.
  unfold updateMessageStatus. rewrite map_map. apply map_ext.
  intros m. now destruct (String.eqb (id m) messageId).
Qed.

Lemma updateMessageStatus_absent (messageId : string) (r : Report)
  (queue : list SMSMessage) :
  (forall m, In m queue -> id m <> messageId) ->
  updateMessageStatus messageId r queue = queue.
Proof.
  intros Habsent. unfold updateMessageStatus.
  rewrite <- (map_id queue) at 2. apply map_ext_in.
  intros m Hin. destruct (String.eqb_spec (id m) messageId) as [Heq|_];
    [|reflexivity].
  exfalso. exact (Habsent m Hin Heq).
Qed.

(** Splits the goal along the paths of [sendSMS]: the native send and the
    one or two status reports. *)
Ltac sendSMS_paths platform st :=
  unfold sendSMS, sendSMS_catch, putStatus; cbn [world messageQueue logs
    nativeCalls requests setMessageQueue addLog];
  destruct (nativeSendSMS platform _ _ _ (world st)) as [[[]|?e] ?w];
  cbn [world messageQueue logs nativeCalls requests setMessageQueue addLog];
  [ destruct (fetchPut platform _ _ _) as [[[]|?e] ?w];
    cbn [world messageQueue logs nativeCalls requests setMessageQueue addLog];
    [ | destruct (fetchPut platform _ _ _) as [? ?w] ]
  | destruct (fetchPut platform _ _ _) as [? ?w] ];
  cbn [fst snd world messageQueue logs nativeCalls requests setMessageQueue addLog].

Section App.

Variable World : Type.
Variable platform : Platform World.
Variable config : Config.
Variable fetchMessages : string -> World -> Js.Completion PollAnswer * World.

Lemma addLog_capped (text : string) (st : AppState World) :
  List.length (logs (addLog World platform text st)) <= 50.
Proof.
  unfold addLog. cbn [logs List.length]. rewrite length_firstn. lia.
Qed.

Lemma sendSMS_log_capped (message : SMSMessage) (st : AppState World) :
  List.length (logs st) <= 50 ->
  List.length (logs (snd (sendSMS World platform config message st))) <= 50.
Proof.
  intros Hcap. sendSMS_paths platform st;
    try exact Hcap; cbn [List.length]; rewrite length_firstn; lia.
Qed.

Lemma sendSMS_appends (message : SMSMessage) (st : AppState World) :
  map forget (messageQueue (snd (sendSMS World platform config message st)))
  = (map forget (messageQueue st) ++ [forget message])%list.
Proof.
  sendSMS_paths platform st;
    rewrite forget_updateMessageStatus, map_app; reflexivity.
Qed.

Lemma sendAll_log_capped (messages : list SMSMessage) :
  forall st,
    List.length (logs st) <= 50 ->
    List.length (logs (snd (sendAll World platform config messages st))) <= 50.
Proof.
  induction messages as [|message rest IH]; intros st Hcap; cbn [sendAll];
    [exact Hcap|].
  pose proof (sendSMS_log_capped message st Hcap) as Hstep.
  destruct (sendSMS World platform config message st) as [[[]|e] st1];
    cbn [snd] in *; auto.
Qed.

Lemma sendAll_appends (messages : list SMSMessage) :
  forall st,
  exists appended,
    map forget (messageQueue (snd (sendAll World platform config messages st)))
    = (map forget (messageQueue st) ++ appended)%list.
Proof.
  induction messages as [|message rest IH]; intros st; cbn [sendAll].
  - exists []. now rewrite app_nil_r.
  - pose proof (sendSMS_appends message st) as Hstep.
    destruct (sendSMS World platform config message st) as [[[]|e] st1];
      cbn [snd] in *.
    + destruct (IH st1) as [appended Happ].
      exists (forget message :: appended).
      rewrite Happ, Hstep, <- app_assoc. reflexivity.
    + exists [forget message]. exact Hstep.
Qed.

Lemma act_log_capped (a : Action) (st : AppState World) :
  List.length (logs st) <= 50 ->
  List.length (logs (act World platform config fetchMessages a st)) <= 50.
Proof.
  intros Hcap. destruct a as [message|data|data|isConnected]; cbn [act].
  - now apply sendSMS_log_capped.
  - unfold onSmsSent, setMessageQueue. cbn [logs]. apply addLog_capped.
  - unfold onSmsError, setMessageQueue. cbn [logs]. apply addLog_capped.
  - unfold pollTick. destruct isConnected; cbn [negb fst]; [|exact Hcap].
    destruct (fetchMessages _ _) as [[[messages|]|e] w]; cbn [fst].
    + pose proof (sendAll_log_capped messages (withWorld World w st) Hcap) as H.
      destruct (sendAll World platform config messages _) as [[[]|e] st1];
        cbn [fst snd] in *; [exact H|apply addLog_capped].
    + exact Hcap.
    + apply addLog_capped.
Qed.

Lemma act_appends (a : Action) (st : AppState World) :
  exists appended,
    map forget (messageQueue (act World platform config fetchMessages a st))
    = (map forget (messageQueue st) ++ appended)%list.
Proof.
  destruct a as [message|data|data|isConnected]; cbn [act].
  - exists [forget message]. apply sendSMS_appends.
  - exists []. unfold onSmsSent, setMessageQueue, addLog. cbn [messageQueue].
    now rewrite forget_updateMessageStatus, app_nil_r.
  - exists []. unfold onSmsError, setMessageQueue, addLog. cbn [messageQueue].
    now rewrite forget_updateMessageStatus, app_nil_r.
  - unfold pollTick. destruct isConnected; cbn [negb fst];
      [|exists []; now rewrite app_nil_r].
    destruct (fetchMessages _ _) as [[[messages|]|e] w]; cbn [fst].
    + destruct (sendAll_appends messages (withWorld World w st)) as [appended H].
      exists appended.
      destruct (sendAll World platform config messages _) as [[[]|e] st1];
        cbn [fst snd] in *; exact H.
    + exists []. cbn. now rewrite app_nil_r.
    + exists []. cbn. now rewrite app_nil_r.
Qed.

(** X8. The activity log never holds more than 50 entries: whatever the
    application does (sends, [smsSent] and [smsError] events, polls), a
    log of at most 50 entries stays one. *)
Theorem logs_stay_capped (actions : list Action) (st : AppState World) :
  List.length (logs st) <= 50 ->
  List.length (logs (run World platform config fetchMessages actions st)) <= 50.
Proof.
  unfold run. revert st.
  induction actions as [|a actions IH]; intros st Hcap; cbn [fold_left];
    [exact Hcap|].
  apply IH. now apply act_log_capped.
Qed.

(** X9. The message queue only grows: no send, event or poll removes or
    reorders an entry or changes anything in it but its status; the
    entries that were queued are found again, in order, in front of the
    ones that came after. *)
Theorem messageQueue_only_grows (actions : list Action) (st : AppState World) :
  exists appended,
    map forget (messageQueue (run World platform config fetchMessages actions st))
    = (map forget (messageQueue st) ++ appended)%list.
Proof.
  unfold run. revert st.
  induction actions as [|a actions IH]; intros st; cbn [fold_left].
  - exists []. now rewrite app_nil_r.
  - destruct (act_appends a st) as [first Hfirst].
    destruct (IH (act World platform config fetchMessages a st)) as [later Hlater].
    exists (first ++ later)%list. rewrite Hlater, Hfirst, <- app_assoc. reflexivity.
Qed.

(** X10. The [smsError] listener looks the message up by the phone number
    of the event: as long as no queued message has that number as its id,
    the event changes no status in the queue. *)
Theorem onSmsError_misses_message (data : SmsEvent) (st : AppState World) :
  (forall m, In m (messageQueue st) -> id m <> eventPhoneNumber data) ->
  messageQueue (onSmsError World platform data st) = messageQueue st.
Proof.
  intros Habsent. unfold onSmsError, setMessageQueue, addLog. cbn [messageQueue].
  now apply updateMessageStatus_absent.
Qed.


(** X12. When the native module accepts the message and the report of the
    success cannot be delivered, the message is marked failed although it
    was sent: every queued entry with its id ends as failed, and a failed
    report, carrying the text of the delivery error, follows the sent
    report. *)
Theorem sendSMS_sent_but_marked_failed (message : SMSMessage)
  (st : AppState World) (w1 w2 : World) (e : Js.Thrown) :
  nativeSendSMS platform (to message) (BridgeApp.message message)
    (campaignId message) (world st) = (Js.Returned tt, w1) ->
  fetchPut platform (statusUrl config message)
    (mkStatusBody ReportSent None (deviceId config) (dateNow platform w1)) w1
  = (Js.Threw e, w2) ->
  let st' := snd (sendSMS World platform config message st) in
  (forall m, In m (messageQueue st') -> id m = id message -> status m = Failed) /\
  requests st'
  = (requests st
     ++ [(statusUrl config message,
          mkStatusBody ReportSent None (deviceId config) (dateNow platform w1));
         (statusUrl config message,
          mkStatusBody ReportFailed (Some (Js.toString e)) (deviceId config)
            (dateNow platform w2))])%list.
Proof.
  intros Hnative Hreport.
  unfold sendSMS, sendSMS_catch, putStatus.
  cbn [world messageQueue logs nativeCalls requests setMessageQueue addLog].
  rewrite Hnative.
  cbn [world messageQueue logs nativeCalls requests setMessageQueue addLog].
  rewrite Hreport.
  cbn [world messageQueue logs nativeCalls requests setMessageQueue addLog].
  destruct (fetchPut platform _ _ w2) as [done w3]. cbn [snd messageQueue requests].
  split.
  - intros m Hin Hid.
    apply (BridgeFacts.updateMessageStatus_sets _ ReportFailed _ _ Hin Hid).
  - now rewrite <- app_assoc.
Qed.

Definition callOf (message : SMSMessage) : string * string * string :=
  (to message, BridgeApp.message message, campaignId message).

Lemma sendSMS_returns_when_reports_arrive (message : SMSMessage)
  (st : AppState World) :
  (forall url body w, exists w', fetchPut platform url body w = (Js.Returned tt, w')) ->
  exists st',
    sendSMS World platform config message st = (Js.Returned tt, st') /\
    nativeCalls st' = (nativeCalls st ++ [callOf message])%list.
Proof.
  intros Hfetch. unfold sendSMS, sendSMS_catch, putStatus.
  cbn [world messageQueue logs nativeCalls requests setMessageQueue addLog].
  destruct (nativeSendSMS platform _ _ _ (world st)) as [[[]|e] w];
    cbn [world messageQueue logs nativeCalls requests setMessageQueue addLog].
  - match goal with
    | |- context [fetchPut platform ?u ?b ?v] =>
        destruct (Hfetch u b v) as [w' ->]
    end.
    eexists. split; reflexivity.
  - match goal with
    | |- context [fetchPut platform ?u ?b ?v] =>
        destruct (Hfetch u b v) as [w' ->]
    end.
    eexists. split; reflexivity.
Qed.

Lemma sendAll_attempts_all (messages : list SMSMessage) :
  (forall url body w, exists w', fetchPut platform url body w = (Js.Returned tt, w')) ->
  forall st,
  exists st',
    sendAll World platform config messages st = (Js.Returned tt, st') /\
    nativeCalls st' = (nativeCalls st ++ map callOf messages)%list.
Proof.
  intros Hfetch. induction messages as [|message rest IH]; intros st; cbn [sendAll map].
  - exists st. now rewrite app_nil_r.
  - destruct (sendSMS_returns_when_reports_arrive message st Hfetch)
      as (st1 & -> & Hcalls1).
    destruct (IH st1) as (st' & Hrun & Hcalls).
    exists st'. split; [exact Hrun|].
    rewrite Hcalls, Hcalls1, <- app_assoc. reflexivity.
Qed.

(** X13. As long as the server takes every status report, one poll hands
    every message of the answer to the native module, once and in the
    order of the answer: a send that fails does not stop the batch. *)
Theorem pollTick_attempts_every_message (messages : list SMSMessage)
  (st : AppState World) (w : World) :
  (forall url body w0,
      exists w', fetchPut platform url body w0 = (Js.Returned tt, w')) ->
  fetchMessages (messagesUrl config) (world st) = (Js.Returned (Some messages), w) ->
  nativeCalls (fst (pollTick World platform config fetchMessages true st))
  = (nativeCalls st ++ map callOf messages)%list.
Proof.
  intros Hfetch Hanswer. unfold pollTick. cbn [negb]. rewrite Hanswer.
  destruct (sendAll_attempts_all messages Hfetch (withWorld World w st))
    as (st' & -> & Hcalls).
  exact Hcalls.
Qed.

End App.

(** A server that is reachable, in front of a phone without service. *)
Definition twoMessages : list SMSMessage :=
  [BridgeFacts.welcome;
   mkSMSMessage "m2" "+15557654321" "See you soon" "spring" Pending 0].

Definition answerTwo (url : string) (w : unit) : Js.Completion PollAnswer * unit :=
  (Js.Returned (Some twoMessages), w).

(** A phone that sends, behind a server that cannot be reached. *)
Definition unreachableServer : Platform unit :=
  mkPlatform unit
    (fun _ _ _ w => (Js.Returned tt, w))
    (fun _ _ w => (Js.Threw (Js.newError "Network request failed"), w))
    (fun _ => 0)
    (fun _ => "10:00:00").

Lemma logs_stay_capped_witness :
  List.length
    (logs (run unit BridgeFacts.noService BridgeFacts.homeServer answerTwo
             [Send BridgeFacts.welcome; Poll true] BridgeFacts.freshApp)) <= 50.
Proof.
  apply (logs_stay_capped unit BridgeFacts.noService BridgeFacts.homeServer
           answerTwo [Send BridgeFacts.welcome; Poll true] BridgeFacts.freshApp).
  simpl. lia.
Defined.

Definition queued : AppState unit :=
  mkAppState [BridgeFacts.welcome] [] tt [] [].

Lemma onSmsError_misses_message_witness :
  messageQueue
    (onSmsError unit BridgeFacts.noService
       (mkSmsEvent "" "Generic failure" "+15551234567") queued)
  = messageQueue queued.
Proof.
  apply (onSmsError_misses_message unit BridgeFacts.noService
           (mkSmsEvent "" "Generic failure" "+15551234567") queued).
  intros m [<-|[]]. discriminate.
Defined.

Lemma sendSMS_sent_but_marked_failed_witness :
  let st' :=
    snd (sendSMS unit unreachableServer BridgeFacts.homeServer BridgeFacts.welcome
           BridgeFacts.freshApp) in
  (forall m,
      In m (messageQueue st') -> id m = id BridgeFacts.welcome -> status m = Failed)
  /\
  requests st'
  = (requests BridgeFacts.freshApp
     ++ [(statusUrl BridgeFacts.homeServer BridgeFacts.welcome,
          mkStatusBody ReportSent None (deviceId BridgeFacts.homeServer)
            (dateNow unreachableServer tt));
         (statusUrl BridgeFacts.homeServer BridgeFacts.welcome,
          mkStatusBody ReportFailed
            (Some (Js.toString (Js.newError "Network request failed")))
            (deviceId BridgeFacts.homeServer) (dateNow unreachableServer tt))])%list.
Proof.
  apply (sendSMS_sent_but_marked_failed unit unreachableServer
           BridgeFacts.homeServer BridgeFacts.welcome BridgeFacts.freshApp tt tt
           (Js.newError "Network request failed"));
    reflexivity.
Defined.

Lemma pollTick_attempts_every_message_witness :
  nativeCalls
    (fst (pollTick unit BridgeFacts.noService BridgeFacts.homeServer answerTwo true
            BridgeFacts.freshApp))
  = (nativeCalls BridgeFacts.freshApp ++ map callOf twoMessages)%list.
Proof.
  apply (pollTick_attempts_every_message unit BridgeFacts.noService
           BridgeFacts.homeServer answerTwo twoMessages BridgeFacts.freshApp tt).
  - intros url body w0. exists w0. reflexivity.
  - reflexivity.
Defined.

End BridgeMoreFacts.

(** ** More on the WebUSB adapter: connecting and disconnecting *)

Module WebUSBMore.
Import WebUSBSMS.

(** The rest of the USB interface: whether [navigator.usb] is there,
    [navigator.usb.requestDevice(filters)] with the device the user picked
    ([None] for no device; the flag tells whether the device has a
    configuration selected), and the calls on the device. *)
Record UsbControl (World : Type) : Type := mkUsbControl {
  usbSupported : bool;
  requestDevice : World -> Js.Completion (option bool) * World;
  open : World -> Js.Completion unit * World;
  selectConfiguration : World -> Js.Completion unit * World;
  claimInterface : World -> Js.Completion unit * World;
  releaseInterface : World -> Js.Completion unit * World;
  close : World -> Js.Completion unit * World
}.
Arguments usbSupported {World}.
Arguments requestDevice {World}.
Arguments open {World}.
Arguments selectConfiguration {World}.
Arguments claimInterface {World}.
Arguments releaseInterface {World}.
Arguments close {World}.

Definition withDevice (d : Device) (attached : bool) : Device :=
  mkDevice (id d) (status d) (lastSeen d) (messageQueue d) attached.

Definition withStatus (d : Device) (s : Status) : Device :=
  mkDevice (id d) s (lastSeen d) (messageQueue d) (device d).

(** [this.status = 'online'; this.lastSeen = new Date()] *)
Definition markOnline (now : nat) (d : Device) : Device :=
  mkDevice (id d) Online now (messageQueue d) (device d).

Section Adapter.

Variable World : Type.
Variable platform : Platform World.
Variable usb : UsbControl World.


(** [initializeDevice()] *)
Definition initializeDevice (d : Device) : Async World string :=
  rethrow World
    (bind World (sendATCommand World platform d "ATZ") (fun _ =>
     bind World (sendATCommand World platform d "ATE0") (fun _ =>
     bind World (sendATCommand World platform d "AT+CMGF=1") (fun _ =>
     sendATCommand World platform d "AT+CNMI=1,2,0,1,0"))))
    (fun error => Js.newError ("Device initialization failed: " ++ Js.toString error)).

(** The [catch] of [connectDevice]. *)
Definition connectFailed (d : Device) (w : World) : bool * Device * World :=
  (false, withStatus d Error, w).

(** The steps of [connectDevice] once a device was picked and stored. *)
Definition connectPicked (configured : bool) (d : Device) (w : World)
  : bool * Device * World :=
  match open usb w with
  | (Js.Threw _, w1) => connectFailed d w1
  | (Js.Returned _, w1) =>
      match (if configured then (Js.Returned tt, w1) else selectConfiguration usb w1) with
      | (Js.Threw _, w2) => connectFailed d w2
      | (Js.Returned _, w2) =>
          match claimInterface usb w2 with
          | (Js.Threw _, w3) => connectFailed d w3
          | (Js.Returned _, w3) =>
              let '(now, w3') := dateNow platform w3 in
              let d1 := markOnline now d in
              match initializeDevice d1 w3' with
              | (Js.Threw _, w4) => connectFailed d1 w4
              | (Js.Returned _, w4) => (true, d1, w4)
              end
          end
      end
  end.

(** [connectDevice(filters)]: the value it resolves with, the device and
    the world after the call. *)
Definition connectDevice (d : Device) (w : World) : bool * Device * World :=
  if negb (usbSupported usb) then connectFailed d w
  else
    match requestDevice usb w with
    | (Js.Threw _, w1) => connectFailed d w1
    | (Js.Returned None, w1) => connectFailed (withDevice d false) w1
    | (Js.Returned (Some configured), w1) =>
        connectPicked configured (withDevice d true) w1
    end.

End Adapter.

End WebUSBMore.

(** ** Facts about connecting, disconnecting and sending *)

Module WebUSBMoreFacts.
Import WebUSBSMS WebUSBMore.

Section Adapter.

Variable World : Type.
Variable platform : Platform World.
Variable usb : UsbControl World.

(** X14. [connectDevice] answers [true] only for an object that is online
    with a device attached, and [false] only for an object in the error
    state; in both cases the count of queued sends is as it was. *)
Theorem connectDevice_answer_matches_status (d : Device) (w : World) :
  let answer := fst (fst (connectDevice World platform usb d w)) in
  let d' := snd (fst (connectDevice World platform usb d w)) in
  messageQueue d' = messageQueue d /\
  (answer = true -> status d' = Online /\ device d' = true) /\
  (answer = false -> status d' = Error).
Proof.
  unfold connectDevice, connectPicked, connectFailed.
  destruct (usbSupported usb); cbn [negb fst snd];
    [|repeat split; discriminate].
  destruct (requestDevice usb w) as [[[configured|]|e] w1]; cbn [fst snd];
    try (repeat split; discriminate).
  destruct (open usb w1) as [[[]|e] w2]; cbn [fst snd];
    try (repeat split; discriminate).
  destruct (if configured then _ else _) as [[[]|e] w3]; cbn [fst snd];
    try (repeat split; discriminate).
  destruct (claimInterface usb w3) as [[[]|e] w4]; cbn [fst snd];
    try (repeat split; discriminate).
  destruct (dateNow platform w4) as [now w4'].
  destruct (initializeDevice World platform _ w4') as [[text|e] w5]; cbn [fst snd];
    repeat split; discriminate.
Qed.

(** X15. A connection that fails after the user picked a device keeps the
    device attached: [connectDevice] answers [false] and the object is in
    the error state, but [this.device] stays set, so a later [sendSMS]
    does not stop at the device check. *)
Theorem connectDevice_failure_keeps_device (d : Device) (w w1 w2 : World)
  (configured : bool) (e : Js.Thrown) (options : Options) (w0 : World) :
  usbSupported usb = true ->
  requestDevice usb w = (Js.Returned (Some configured), w1) ->
  open usb w1 = (Js.Threw e, w2) ->
  let d' := snd (fst (connectDevice World platform usb d w)) in
  fst (fst (connectDevice World platform usb d w)) = false /\
  device d' = true /\
  fst (fst (sendSMS World platform options d' w0))
  <> Js.Threw (Js.newError "No USB device connected").
Proof.
  intros Hsupported Hrequest Hopen.
  unfold connectDevice, connectPicked, connectFailed.
  rewrite Hsupported, Hrequest. cbn [negb]. rewrite Hopen. cbn [fst snd].
  repeat split.
  match goal with
  | |- context [sendSMS World platform options ?d0 w0] =>
      destruct (WebUSBFacts.sendSMS_paths World platform options d0 w0 eq_refl)
        as [(text & w3 & _ & ->)|(error & w3 & _ & ->)]
  end; cbn [fst]; discriminate.
Qed.


(** X17. [sendSMS] never leaves the object busy.  A call that returns
    leaves it online; the clock is read twice after the last command, and
    [lastSeen] is the time of the first reading while the message id is
    made of the object's id and the time of the second.  A call that
    throws with a device attached leaves the object in the error state. *)
Theorem sendSMS_status_follows_outcome (options : Options) (d : Device) (w : World) :
  device d = true ->
  let outcome := fst (fst (sendSMS World platform options d w)) in
  let d' := snd (fst (sendSMS World platform options d w)) in
  status d' <> Busy /\
  (forall result,
      outcome = Js.Returned result ->
      exists text w1,
        sendCommands World platform (beginSend d) options w = (Js.Returned text, w1) /\
        status d' = Online /\
        lastSeen d' = fst (dateNow platform w1) /\
        result
        = mkSendResult
            ("usb_" ++ id d ++ "_"
             ++ Js.ofNat (fst (dateNow platform (snd (dateNow platform w1)))))
            "sent")
  /\
  (forall e, outcome = Js.Threw e -> status d' = Error).
Proof.
  intros Hdev. cbn zeta.
  destruct (WebUSBFacts.sendSMS_paths World platform options d w Hdev)
    as [(text & w1 & Hrun & ->)|(error & w1 & _ & ->)];
    cbn [fst snd finishOk finishErr status lastSeen].
  - split; [discriminate|]. split; [|discriminate].
    intros result H. injection H as <-. exists text, w1. repeat split. exact Hrun.
  - split; [discriminate|]. split; [discriminate|reflexivity].
Qed.

End Adapter.

(** A browser in which the user picks a modem that refuses to open. *)
Definition stuckModem : UsbControl unit :=
  mkUsbControl unit true
    (fun w => (Js.Returned (Some true), w))
    (fun w => (Js.Threw (Js.newError "Access denied"), w))
    (fun w => (Js.Returned tt, w))
    (fun w => (Js.Returned tt, w))
    (fun w => (Js.Returned tt, w))
    (fun w => (Js.Returned tt, w)).

Lemma connectDevice_failure_keeps_device_witness :
  let d' :=
    snd (fst (connectDevice unit WebUSBFacts.steadyEndpoint stuckModem
                WebUSBFacts.unplugged tt)) in
  fst (fst (connectDevice unit WebUSBFacts.steadyEndpoint stuckModem
              WebUSBFacts.unplugged tt)) = false /\
  device d' = true /\
  fst (fst (sendSMS unit WebUSBFacts.steadyEndpoint WebUSBFacts.hello d' tt))
  <> Js.Threw (Js.newError "No USB device connected").
Proof.
  apply (connectDevice_failure_keeps_device unit WebUSBFacts.steadyEndpoint
           stuckModem WebUSBFacts.unplugged tt tt tt true
           (Js.newError "Access denied") WebUSBFacts.hello tt);
    reflexivity.
Defined.

(** An endpoint whose clock moves on by one millisecond at every
    reading. *)
Definition tickingEndpoint : Platform nat :=
  mkPlatform nat
    (fun _ w => (Js.Returned tt, w))
    (fun w => (Js.Returned (Some "OK"), w))
    (fun w => (w, S w)).

Lemma sendSMS_status_follows_outcome_witness :
  let outcome :=
    fst (fst (sendSMS nat tickingEndpoint WebUSBFacts.hello WebUSBFacts.modem 1000)) in
  let d' :=
    snd (fst (sendSMS nat tickingEndpoint WebUSBFacts.hello WebUSBFacts.modem 1000)) in
  status d' <> Busy /\
  (forall result,
      outcome = Js.Returned result ->
      exists text w1,
        sendCommands nat tickingEndpoint (beginSend WebUSBFacts.modem)
          WebUSBFacts.hello 1000 = (Js.Returned text, w1) /\
        status d' = Online /\
        lastSeen d' = fst (dateNow tickingEndpoint w1) /\
        result
        = mkSendResult
            ("usb_" ++ id WebUSBFacts.modem ++ "_"
             ++ Js.ofNat
                  (fst (dateNow tickingEndpoint (snd (dateNow tickingEndpoint w1)))))
            "sent")
  /\
  (forall e, outcome = Js.Threw e -> status d' = Error).
Proof.
  apply (sendSMS_status_follows_outcome nat tickingEndpoint
           WebUSBFacts.hello WebUSBFacts.modem 1000).
  reflexivity.
Defined.

(** With that clock the two times differ: [lastSeen] is 1000 and the
    message id ends in 1001. *)
Example sendSMS_reads_the_clock_twice :
  sendSMS nat tickingEndpoint WebUSBFacts.hello WebUSBFacts.modem 1000
  = (Js.Returned (mkSendResult "usb_usb_1_1001" "sent"),
     mkDevice "usb_1" Online 1000 0 true, 1002).
Proof. reflexivity. Qed.

End WebUSBMoreFacts.

(** ** More on [NetworkService]: connecting, closing, reconnecting *)

Module NetworkMore.
Import NetworkService.

(** [s.replace(pattern, replacement)] with a string pattern and a
    replacement without [$]: the first occurrence is replaced. *)
Fixpoint replaceFirst (pattern replacement s : string) : string :=
  if Js.startsWith s pattern
  then replacement ++ Js.drop (length pattern) s
  else
    match s with
    | EmptyString => EmptyString
    | String c s' => String c (replaceFirst pattern replacement s')
    end.

(** The address [connect] opens the socket at. *)
Definition socketUrl (serverUrl : string) : string :=
  replaceFirst "https://" "wss://" (replaceFirst "http://" "ws://" serverUrl) ++ "/ws".

(** Timers and sockets of the runtime: [setTimeout] with the handle it
    returns, and [new WebSocket(url)], which throws on an address it
    cannot parse. *)
Record Runtime (World : Type) : Type := mkRuntime {
  setTimeout : World -> nat * World;
  newWebSocket : string -> World -> Js.Completion unit * World
}.
Arguments setTimeout {World}.
Arguments newWebSocket {World}.

Definition withIsConnected (st : Service) (b : bool) : Service :=
  mkService (socket st) (serverUrl st) (deviceInfo st) b
    (reconnectTimeout st) (heartbeatInterval st).

Definition withReconnectTimeout (st : Service) (t : option nat) : Service :=
  mkService (socket st) (serverUrl st) (deviceInfo st) (isConnected st)
    t (heartbeatInterval st).

(** [if (this.reconnectTimeout)], [if (this.heartbeatInterval)]: a stored
    handle counts when it is truthy, which the handle 0 is not. *)
Definition isSet (timer : option nat) : bool :=
  match timer with
  | Some handle => negb (handle =? 0)
  | None => false
  end.

(** [stopHeartbeat()] *)
Definition stopHeartbeat (st : Service) : Service :=
  if isSet (heartbeatInterval st)
  then
    mkService (socket st) (serverUrl st) (deviceInfo st) (isConnected st)
      (reconnectTimeout st) None
  else st.

(** [disconnect()]: a pending reconnect and the heartbeat are cleared,
    the socket is closed and dropped. *)
Definition disconnect (st : Service) : Service :=
  let st1 :=
    if isSet (reconnectTimeout st) then withReconnectTimeout st None else st in
  let st2 := stopHeartbeat st1 in
  mkService None (serverUrl st2) (deviceInfo st2) false
    (reconnectTimeout st2) (heartbeatInterval st2).

Section Service.

Variable World : Type.
Variable runtime : Runtime World.

(** [scheduleReconnect()] *)
Definition scheduleReconnect (st : Service) (w : World) : Service * World :=
  if isSet (reconnectTimeout st) then (st, w)
  else
    let '(handle, w') := setTimeout runtime w in
    (withReconnectTimeout st (Some handle), w').

(** The [onclose] handler that [connect] installs on a socket. *)
Definition onclose (st : Service) (w : World) : Service * World :=
  scheduleReconnect (stopHeartbeat (withIsConnected st false)) w.

(** [connect(serverUrl, deviceInfo)] up to the point where it waits for
    the socket: the fields are stored, the socket is created and the
    timer of the connection timeout is set.  The flag tells whether the
    promise is rejected at once because the socket could not be
    created. *)
Definition connect (url : string) (info : DeviceInfo) (st : Service) (w : World)
  : bool * Service * World :=
  let st1 :=
    mkService (socket st) url (Some info) (isConnected st)
      (reconnectTimeout st) (heartbeatInterval st) in
  match newWebSocket runtime (socketUrl url) w with
  | (Js.Threw _, w1) => (true, st1, w1)
  | (Js.Returned _, w1) =>
      let '(_, w2) := setTimeout runtime w1 in
      (false, withSocket st1 (mkWebSocket CONNECTING []), w2)
  end.

(** [attemptReconnect()], with the [catch] that follows a connection
    rejected at once. *)
Definition attemptReconnect (st : Service) (w : World) : Service * World :=
  match deviceInfo st with
  | None => (st, w)
  | Some info =>
      if isConnected st || negb (Js.truthy (serverUrl st)) then (st, w)
      else
        match connect (serverUrl st) info st w with
        | (true, st1, w1) => scheduleReconnect st1 w1
        | (false, st1, w1) => (st1, w1)
        end
  end.

(** The callback of the timer set by [scheduleReconnect]. *)
Definition reconnectTimerFires (st : Service) (w : World) : Service * World :=
  attemptReconnect (withReconnectTimeout st None) w.

End Service.

End NetworkMore.

(** ** Facts about the connection of [NetworkService] *)

Module NetworkMoreFacts.
Import NetworkService NetworkMore.

Lemma replaceFirst_prefix (p r t : string) :
  replaceFirst p r (p ++ t) = r ++ t.
Proof.
  destruct (p ++ t) eqn:E; cbn [replaceFirst]; rewrite <- E;
    now rewrite PreviewFacts.startsWith_app, PreviewFacts.drop_app.
Qed.

Lemma includes_false_here (s p : string) :
  Js.includes s p = false -> Js.startsWith s p = false.
Proof.
  destruct s; cbn [Js.includes]; intros H; now apply orb_false_elim in H.
Qed.

Lemma replaceFirst_absent (p r s : string) :
  Js.includes s p = false -> replaceFirst p r s = s.
Proof.
  induction s as [|c s IH]; intros H; cbn [replaceFirst];
    rewrite (includes_false_here _ _ H); [reflexivity|].
  cbn [Js.includes] in H. apply orb_false_elim in H. destruct H as [_ H].
  now rewrite IH.
Qed.

(** An occurrence of a pattern that opens with [h] starts nowhere in
    [ws://] or [ttps://]. *)
Lemma includes_after (prefix host p : string) :
  Js.forallb (fun c => negb (Ascii.eqb c "h"%char)) prefix = true ->
  Js.includes host (String "h"%char p) = false ->
  Js.includes (prefix ++ host) (String "h"%char p) = false.
Proof.
  intros Hprefix Hhost. induction prefix as [|c prefix IH]; [exact Hhost|].
  cbn [Js.forallb] in Hprefix. apply andb_prop in Hprefix.
  destruct Hprefix as [Hc Hprefix]. apply negb_true_iff in Hc.
  change (String c prefix ++ host) with (String c (prefix ++ host)).
  cbn [Js.includes Js.startsWith]. rewrite Ascii.eqb_sym, Hc. cbn [andb orb].
  now apply IH.
Qed.

(** X18. The socket address keeps the host and swaps the scheme: an
    [http://] address becomes a [ws://] one and an [https://] address a
    [wss://] one, each with [/ws] at the end; a server address without
    either scheme is only given the [/ws] ending, with no socket scheme
    in front. *)
Theorem socketUrl_swaps_scheme (host : string) :
  Js.includes host "http://" = false ->
  Js.includes host "https://" = false ->
  socketUrl ("http://" ++ host) = "ws://" ++ host ++ "/ws" /\
  socketUrl ("https://" ++ host) = "wss://" ++ host ++ "/ws" /\
  socketUrl host = host ++ "/ws".
Proof.
  intros Hhttp Hhttps. unfold socketUrl. repeat split.
  - rewrite replaceFirst_prefix.
    rewrite (replaceFirst_absent "https://" "wss://" ("ws://" ++ host)).
    + now rewrite Js.append_assoc.
    + apply (includes_after "ws://" host "ttps://"); [reflexivity|exact Hhttps].
  - rewrite (replaceFirst_absent "http://" "ws://" ("https://" ++ host)).
    + rewrite replaceFirst_prefix. now rewrite Js.append_assoc.
    + change ("https://" ++ host) with (String "h"%char ("ttps://" ++ host)).
      cbn [Js.includes]. apply orb_false_intro.
      * reflexivity.
      * apply (includes_after "ttps://" host "ttp://"); [reflexivity|exact Hhttp].
  - now rewrite (replaceFirst_absent _ _ host Hhttp), (replaceFirst_absent _ _ host Hhttps).
Qed.

Lemma socketUrl_swaps_scheme_witness :
  socketUrl ("http://" ++ "192.168.1.100:4000") = "ws://" ++ "192.168.1.100:4000" ++ "/ws" /\
  socketUrl ("https://" ++ "192.168.1.100:4000") = "wss://" ++ "192.168.1.100:4000" ++ "/ws" /\
  socketUrl "192.168.1.100:4000" = "192.168.1.100:4000" ++ "/ws".
Proof.
  apply (socketUrl_swaps_scheme "192.168.1.100:4000"); reflexivity.
Defined.

Section Service.

Variables Data World : Type.
Variable platform : Platform Data World.
Variable runtime : Runtime World.

(** X19. [send] never throws, also when [JSON.stringify] or the socket
    does, and it touches nothing but the socket: it hands at most one text
    to it, and only when the socket is open, the text being the JSON of
    the type, the data, the time and the device id. *)
Theorem send_hands_over_at_most_one_text (type : string) (data : Data)
  (st : Service) (w : World) :
  let st' := snd (fst (send Data World platform type data st w)) in
  fst (fst (send Data World platform type data st w)) = Js.Returned tt /\
  (st' = st \/
   exists ws text,
     socket st = Some ws /\ readyState ws = OPEN /\
     stringify platform
       (mkMessage type data (toISOString platform w)
          (option_map deviceId (deviceInfo st))) = Js.Returned text /\
     st' = withSocket st (mkWebSocket OPEN (sent ws ++ [text]))).
Proof.
  unfold send. destruct (socket st) as [ws|] eqn:Hsocket; [|now split; [|left]].
  destruct (readyState ws) eqn:Hstate; cbn [isOpen negb];
    try (now split; [|left]).
  destruct (stringify platform _) as [text|error] eqn:Htext; [|now split; [|left]].
  destruct (socketSend platform text w) as [[]|error]; [|now split; [|left]].
  split; [reflexivity|]. right. exists ws, text. auto.
Qed.

(** X20. At most one reconnect is pending, as long as the runtime hands
    out timer handles other than 0: after [scheduleReconnect] a handle
    other than 0 is stored, and scheduling again while it is stored sets
    no timer and changes nothing. *)
Theorem scheduleReconnect_once (st : Service) (w : World) :
  (forall w0, fst (setTimeout runtime w0) <> 0) ->
  let st1 := fst (scheduleReconnect World runtime st w) in
  let w1 := snd (scheduleReconnect World runtime st w) in
  (exists handle, reconnectTimeout st1 = Some handle /\ handle <> 0) /\
  scheduleReconnect World runtime st1 w1 = (st1, w1).
Proof.
  intros Hhandles. cbn zeta. unfold scheduleReconnect.
  destruct (isSet (reconnectTimeout st)) eqn:Hset; cbn [fst snd].
  - rewrite Hset. split; [|reflexivity].
    unfold isSet in Hset. destruct (reconnectTimeout st) as [handle|]; [|discriminate].
    exists handle. split; [reflexivity|].
    intros ->. discriminate.
  - pose proof (Hhandles w) as Hhandle.
    destruct (setTimeout runtime w) as [handle w']. cbn [fst snd] in *.
    cbn [reconnectTimeout withReconnectTimeout isSet].
    destruct (Nat.eqb_spec handle 0) as [|_]; [contradiction|].
    cbn [negb]. split; [eauto|reflexivity].
Qed.

(** A runtime that hands out the handle 0 is another matter: the stored 0
    does not count as pending, and scheduling again sets a second timer. *)
Lemma scheduleReconnect_twice_on_zero (st : Service) (w w' : World) :
  isSet (reconnectTimeout st) = false ->
  setTimeout runtime w = (0, w') ->
  scheduleReconnect World runtime
    (fst (scheduleReconnect World runtime st w))
    (snd (scheduleReconnect World runtime st w))
  = (withReconnectTimeout st (Some (fst (setTimeout runtime w'))),
     snd (setTimeout runtime w')).
Proof.
  intros Hset Hzero. unfold scheduleReconnect. rewrite Hset, Hzero.
  cbn [fst snd reconnectTimeout withReconnectTimeout isSet Nat.eqb negb].
  destruct (setTimeout runtime w') as [handle w'']. reflexivity.
Qed.

(** X21. [disconnect] does not last.  When the socket it closed reports
    its close, a reconnect is scheduled, and when that timer fires the
    service, which still knows its server and its device, opens a new
    socket. *)
Theorem disconnect_is_followed_by_reconnect (st : Service) (w : World)
  (info : DeviceInfo) :
  Js.truthy (serverUrl st) = true ->
  deviceInfo st = Some info ->
  (forall url w0, exists w', newWebSocket runtime url w0 = (Js.Returned tt, w')) ->
  let closed := onclose World runtime (disconnect st) w in
  let reopened := reconnectTimerFires World runtime (fst closed) (snd closed) in
  (exists handle, reconnectTimeout (fst closed) = Some handle) /\
  socket (fst reopened) = Some (mkWebSocket CONNECTING []).
Proof.
  intros Hurl Hinfo Hsocket. cbn zeta.
  assert (Hcleared : isSet (reconnectTimeout (disconnect st)) = false).
  { unfold disconnect, stopHeartbeat, withReconnectTimeout.
    destruct (isSet (reconnectTimeout st)) eqn:Hset;
      cbn [heartbeatInterval reconnectTimeout];
      destruct (isSet (heartbeatInterval st)); cbn [reconnectTimeout isSet];
      first [reflexivity | exact Hset]. }
  assert (Hkept : serverUrl (disconnect st) = serverUrl st /\
                  deviceInfo (disconnect st) = deviceInfo st).
  { unfold disconnect, stopHeartbeat, withReconnectTimeout.
    destruct (isSet (reconnectTimeout st));
      cbn [heartbeatInterval reconnectTimeout];
      destruct (isSet (heartbeatInterval st)); split; reflexivity. }
  destruct Hkept as [Hsame_url Hsame_info].
  set (closedService := disconnect st) in *.
  unfold onclose, scheduleReconnect.
  assert (Hstill : isSet (reconnectTimeout (stopHeartbeat (withIsConnected closedService false)))
                   = false).
  { unfold stopHeartbeat, withIsConnected. cbn [heartbeatInterval].
    destruct (isSet (heartbeatInterval closedService)); cbn [reconnectTimeout]; exact Hcleared. }
  rewrite Hstill. destruct (setTimeout runtime w) as [handle w1].
  cbn [fst snd]. split; [cbn; eauto|].
  unfold reconnectTimerFires, attemptReconnect, withReconnectTimeout.
  unfold stopHeartbeat, withIsConnected. cbn [heartbeatInterval].
  destruct (isSet (heartbeatInterval closedService));
    cbn [deviceInfo isConnected serverUrl socket reconnectTimeout heartbeatInterval];
    rewrite Hsame_info, Hinfo, Hsame_url, Hurl; cbn [negb orb]; unfold connect;
    destruct (Hsocket (socketUrl (serverUrl st)) w1) as [w2 ->];
    destruct (setTimeout runtime w2) as [handle2 w3]; reflexivity.
Qed.

End Service.

(** A runtime that numbers its timers from 1 and creates every socket. *)
Definition steadyRuntime : Runtime nat :=
  mkRuntime nat (fun timers => (S timers, S timers))
    (fun _ timers => (Js.Returned tt, timers)).

Definition connected : Service :=
  mkService (Some (mkWebSocket OPEN [])) "http://192.168.1.100:4000"
    (Some (mkDeviceInfo "device-1" "Pixel")) true None (Some 7).

Lemma scheduleReconnect_once_witness :
  let st1 := fst (scheduleReconnect nat steadyRuntime (disconnect connected) 0) in
  let w1 := snd (scheduleReconnect nat steadyRuntime (disconnect connected) 0) in
  (exists handle, reconnectTimeout st1 = Some handle /\ handle <> 0) /\
  scheduleReconnect nat steadyRuntime st1 w1 = (st1, w1).
Proof.
  apply (scheduleReconnect_once nat steadyRuntime (disconnect connected) 0).
  intros w0. discriminate.
Defined.

Lemma disconnect_is_followed_by_reconnect_witness :
  let closed := onclose nat steadyRuntime (disconnect connected) 0 in
  let reopened := reconnectTimerFires nat steadyRuntime (fst closed) (snd closed) in
  (exists handle, reconnectTimeout (fst closed) = Some handle) /\
  socket (fst reopened) = Some (mkWebSocket CONNECTING []).
Proof.
  apply (disconnect_is_followed_by_reconnect nat steadyRuntime connected 0
           (mkDeviceInfo "device-1" "Pixel")).
  - reflexivity.
  - reflexivity.
  - intros url w0. exists w0. reflexivity.
Defined.

End NetworkMoreFacts.

(** ** The bridge service: a send request from the server *)

Module BridgeService.

(** The [data] of a [send-sms] message. *)
Record SendRequest : Type := mkSendRequest {
  to : string;
  message : string;
  messageId : string
}.

(** The payloads of the reports: [{ messageId, status: 'sent', timestamp }]
    and [{ messageId, error, timestamp }]. *)
Inductive ReportData : Type :=
| SentData (messageId timestamp : string)
| FailedData (messageId error timestamp : string).

Record BridgeState (World : Type) : Type := mkBridgeState {
  sms : SMSService.State World;
  net : NetworkService.Service;
  logs : list string;
  console : list NetworkService.ConsoleLine
}.
Arguments mkBridgeState {World}.
Arguments sms {World}.
Arguments net {World}.
Arguments logs {World}.
Arguments console {World}.

(** What [SMSService.sendSMS] writes to the console: the
    [console.error('SMS sending failed:', error)] of its [catch], which is
    reached by a call that the native module rejected. *)
Definition consoleOfCall (call : SMSService.NativeCall)
  : list NetworkService.ConsoleLine :=
  match SMSService.outcome call with
  | SMSService.Rejected error =>
      [NetworkService.ConsoleError "SMS sending failed:" error]
  | SMSService.Resolved _ => []
  end.

Section App.

Variable World : Type.
Variable phone : SMSService.Platform World.
Variable network : NetworkService.Platform ReportData World.

(** [new Date().toLocaleTimeString()] *)
Variable localeTime : World -> string.

(** [new Date().toISOString()] in the handler: the text, and the world
    after the reading, in which [NetworkService.send] reads the clock
    again. *)
Variable isoNow : World -> string * World.

(** [setLogs(prev => [`[${timestamp}] ${message}`, ...prev.slice(0, 49)])] *)
Definition addLog (text : string) (st : BridgeState World) : BridgeState World :=
  mkBridgeState (sms st) (net st)
    (("[" ++ localeTime (SMSService.world (sms st)) ++ "] " ++ text)
       :: firstn 49 (logs st))
    (console st).

(** [networkService.send(type, data)] on the state of the bridge. *)
Definition report (type : string) (data : ReportData) (st : BridgeState World)
  : BridgeState World :=
  let '(_, net', lines) :=
    NetworkService.send ReportData World network type data (net st)
      (SMSService.world (sms st)) in
  mkBridgeState (sms st) net' (logs st) (console st ++ lines).

(** The lines written by the calls that [after] has and [before] had
    not. *)
Definition sendSMSConsole (before after : SMSService.State World)
  : list NetworkService.ConsoleLine :=
  flat_map consoleOfCall
    (skipn (List.length (SMSService.calls before)) (SMSService.calls after)).

(** The timestamp of a payload. *)
Definition stamp (st : BridgeState World) : string * BridgeState World :=
  let '(text, w) := isoNow (SMSService.world (sms st)) in
  (text,
   mkBridgeState (SMSService.mkState w (SMSService.calls (sms st)))
     (net st) (logs st) (console st)).

(** [result.error || 'SMS sending failed'] *)
Definition reasonOf (result : SMSService.SMSResult) : string :=
  match SMSService.error result with
  | Some text => if Js.truthy text then text else "SMS sending failed"
  | None => "SMS sending failed"
  end.

Definition handleSendSMSRequest (data : SendRequest) (st : BridgeState World)
  : BridgeState World :=
  let st1 :=
    addLog ("Sending SMS to " ++ to data ++ ": "
            ++ Js.substring (message data) 0 50 ++ "...") st in
  let '(result, sms') :=
    SMSService.sendSMS World phone (to data) (message data) (sms st1) in
  let st2 :=
    mkBridgeState sms' (net st1) (logs st1)
      (console st1 ++ sendSMSConsole (sms st1) sms') in
  if SMSService.success result then
    let '(timestamp, st3) := stamp st2 in
    addLog ("SMS sent successfully to " ++ to data)
      (report "sms-sent" (SentData (messageId data) timestamp) st3)
  else
    let error := Js.newError (reasonOf result) in
    let st3 :=
      mkBridgeState (sms st2) (net st2) (logs st2)
        (console st2 ++ [NetworkService.ConsoleError "SMS sending failed:" error]) in
    let st4 := addLog ("SMS send error: " ++ Js.toString error) st3 in
    let '(timestamp, st5) := stamp st4 in
    report "sms-failed"
      (FailedData (messageId data) (Js.toString error) timestamp) st5.

End App.

End BridgeService.

(** ** Facts about the bridge service *)

Module BridgeServiceFacts.
Import BridgeService.

Section App.

Variable World : Type.
Variable phone : SMSService.Platform World.
Variable network : NetworkService.Platform ReportData World.
Variable localeTime : World -> string.
Variable isoNow : World -> string * World.

Lemma reasonOf_text (result : SMSService.SMSResult) :
  Js.toString (Js.newError (reasonOf result)) = "Error: " ++ reasonOf result.
Proof.
  unfold reasonOf. destruct (SMSService.error result) as [[|c text]|]; reflexivity.
Qed.

(** The handler, path by path: the state before the report. *)
Lemma handleSendSMSRequest_paths (data : SendRequest) (st : BridgeState World) :
  let result :=
    fst (SMSService.sendSMS World phone (to data) (message data) (sms st)) in
  let sent :=
    snd (SMSService.sendSMS World phone (to data) (message data) (sms st)) in
  let read := isoNow (SMSService.world sent) in
  let after :=
    SMSService.mkState (snd read) (SMSService.calls sent) in
  exists lines entries,
    handleSendSMSRequest World phone network localeTime isoNow data st
    = if SMSService.success result
      then
        addLog World localeTime ("SMS sent successfully to " ++ to data)
          (report World network "sms-sent" (SentData (messageId data) (fst read))
             (mkBridgeState after (net st) entries lines))
      else
        report World network "sms-failed"
          (FailedData (messageId data) ("Error: " ++ reasonOf result) (fst read))
          (mkBridgeState after (net st) entries lines).
Proof.
  cbn zeta. unfold handleSendSMSRequest. cbn [sms addLog].
  destruct (SMSService.sendSMS World phone (to data) (message data) (sms st))
    as [result sent].
  cbn [fst snd]. destruct (SMSService.success result).
  - unfold stamp. cbn [sms net logs console].
    destruct (isoNow (SMSService.world sent)) as [text w]. cbn [fst snd].
    eexists. eexists. reflexivity.
  - unfold stamp. cbn [sms net logs console addLog].
    destruct (isoNow (SMSService.world sent)) as [text w]. cbn [fst snd].
    rewrite reasonOf_text. eexists. eexists. reflexivity.
Qed.

(** X22. With the socket open and a network layer that can write and
    send every report, a send request is answered by exactly one text on
    the socket.  It is the JSON of an [sms-sent] report when [sendSMS]
    succeeded, and of an [sms-failed] report when it did not, whose error
    is [Error: ] followed by the error text of the result of [sendSMS],
    or by [SMS sending failed] when the result has no such text.  The
    timestamp of the payload is read from the clock by the handler, after
    the send; the timestamp around it is read by [NetworkService.send],
    after that. *)
Theorem handleSendSMSRequest_reports_once (data : SendRequest)
  (st : BridgeState World) (ws : NetworkService.WebSocket) :
  NetworkService.socket (net st) = Some ws ->
  NetworkService.readyState ws = NetworkService.OPEN ->
  (forall m, exists text, NetworkService.stringify network m = Js.Returned text) ->
  (forall text w, NetworkService.socketSend network text w = Js.Returned tt) ->
  let result :=
    fst (SMSService.sendSMS World phone (to data) (message data) (sms st)) in
  let sent :=
    snd (SMSService.sendSMS World phone (to data) (message data) (sms st)) in
  let read := isoNow (SMSService.world sent) in
  let st' := handleSendSMSRequest World phone network localeTime isoNow data st in
  exists type payload text,
    NetworkService.socket (net st')
    = Some (NetworkService.mkWebSocket NetworkService.OPEN
              (NetworkService.sent ws ++ [text])%list) /\
    NetworkService.stringify network
      (NetworkService.mkMessage type payload
         (NetworkService.toISOString network (snd read))
         (option_map NetworkService.deviceId (NetworkService.deviceInfo (net st))))
    = Js.Returned text /\
    (SMSService.success result = true ->
     type = "sms-sent" /\ payload = SentData (messageId data) (fst read)) /\
    (SMSService.success result = false ->
     type = "sms-failed" /\
     (forall reason,
         SMSService.error result = Some reason ->
         reason <> "" ->
         payload = FailedData (messageId data) ("Error: " ++ reason) (fst read)) /\
     (SMSService.error result = None \/ SMSService.error result = Some "" ->
      payload
      = FailedData (messageId data) "Error: SMS sending failed" (fst read))).
Proof.
  intros Hsocket Hopen Hstringify Hsend. cbn zeta.
  destruct (handleSendSMSRequest_paths data st) as (lines & entries & ->).
  destruct (SMSService.success
              (fst (SMSService.sendSMS World phone (to data) (message data) (sms st))))
    eqn:Hsuccess.
  - unfold report, NetworkService.send.
    cbn [sms net logs console addLog SMSService.world].
    rewrite Hsocket, Hopen. cbn [NetworkService.isOpen negb].
    match goal with
    | |- context [NetworkService.stringify network ?m] =>
        destruct (Hstringify m) as [text Htext]; rewrite Htext
    end.
    rewrite Hsend. cbn [sms net addLog NetworkService.socket NetworkService.withSocket].
    exists "sms-sent". eexists. exists text.
    split; [reflexivity|]. split; [exact Htext|].
    split; [auto|discriminate].
  - unfold report, NetworkService.send.
    cbn [sms net logs console addLog SMSService.world].
    rewrite Hsocket, Hopen. cbn [NetworkService.isOpen negb].
    match goal with
    | |- context [NetworkService.stringify network ?m] =>
        destruct (Hstringify m) as [text Htext]; rewrite Htext
    end.
    rewrite Hsend. cbn [sms net addLog NetworkService.socket NetworkService.withSocket].
    exists "sms-failed". eexists. exists text.
    split; [reflexivity|]. split; [exact Htext|].
    split; [discriminate|]. intros _. split; [reflexivity|]. split.
    + intros reason Hreason Hfilled. unfold reasonOf. rewrite Hreason.
      destruct reason; [contradiction|reflexivity].
    + intros [Hnone|Hempty]; unfold reasonOf; [rewrite Hnone|rewrite Hempty];
        reflexivity.
Qed.

(** X23. While the socket is absent or not open, the outcome of a send
    request never reaches the server: the phone is left as [sendSMS]
    left it, so the message may well have been sent, but for the reading
    of the clock for the report, and the network service is untouched. *)
Theorem handleSendSMSRequest_unreported_when_closed (data : SendRequest)
  (st : BridgeState World) :
  NetworkService.socket (net st) = None \/
  (exists ws,
      NetworkService.socket (net st) = Some ws /\
      NetworkService.readyState ws <> NetworkService.OPEN) ->
  let sent :=
    snd (SMSService.sendSMS World phone (to data) (message data) (sms st)) in
  let st' := handleSendSMSRequest World phone network localeTime isoNow data st in
  net st' = net st /\
  sms st'
  = SMSService.mkState (snd (isoNow (SMSService.world sent))) (SMSService.calls sent).
Proof.
  intros Hclosed. cbn zeta.
  assert (Hdrop : forall type payload w,
             NetworkService.send ReportData World network type payload (net st) w
             = (Js.Returned tt, net st,
                [NetworkService.ConsoleWarn
                   "WebSocket not connected, cannot send message"])).
  { intros type payload w. unfold NetworkService.send.
    destruct Hclosed as [->|(ws & -> & Hstate)]; [reflexivity|].
    destruct (NetworkService.readyState ws); try reflexivity. contradiction. }
  destruct (handleSendSMSRequest_paths data st) as (lines & entries & ->).
  destruct (SMSService.success _);
    unfold report; cbn [sms net logs console addLog]; rewrite Hdrop; split; reflexivity.
Qed.

End App.

Definition openBridge : BridgeState nat :=
  mkBridgeState (SMSService.mkState 1 []) NetworkMoreFacts.connected [] [].

Definition closedBridge : BridgeState nat :=
  mkBridgeState (SMSService.mkState 1 [])
    (NetworkMore.disconnect NetworkMoreFacts.connected) [] [].

(** A bridge whose phone has made no send yet: its radio is out. *)
Definition coldBridge : BridgeState nat :=
  mkBridgeState (SMSService.mkState 0 []) NetworkMoreFacts.connected [] [].

(** A network layer that writes a report as its type, its payload and the
    time around it. *)
Definition payloadText (data : ReportData) : string :=
  match data with
  | SentData id timestamp => id ++ " sent " ++ timestamp
  | FailedData id error timestamp => id ++ " " ++ error ++ " " ++ timestamp
  end.

Definition reportWriter : NetworkService.Platform ReportData nat :=
  NetworkService.mkPlatform ReportData nat
    (fun m =>
       Js.Returned
         (NetworkService.messageType ReportData m ++ " "
          ++ payloadText (NetworkService.messageData ReportData m) ++ " "
          ++ NetworkService.messageTimestamp ReportData m))
    (fun _ _ => Js.Returned tt)
    (fun w => "T" ++ Js.ofNat w).

(** A clock read by the handler that stands ten sends later. *)
Definition laterClock (w : nat) : string * nat := ("T" ++ Js.ofNat w, w + 10).

Definition order : SendRequest := mkSendRequest "+15551234567" "Your order has shipped" "m1".

Lemma handleSendSMSRequest_reports_once_witness :
  let result :=
    fst (SMSService.sendSMS nat SendFacts.flakyPhone (to order) (message order)
           (sms coldBridge)) in
  let sent :=
    snd (SMSService.sendSMS nat SendFacts.flakyPhone (to order) (message order)
           (sms coldBridge)) in
  let read := laterClock (SMSService.world sent) in
  let st' :=
    handleSendSMSRequest nat SendFacts.flakyPhone reportWriter (fun _ => "10:00:00")
      laterClock order coldBridge in
  exists type payload text,
    NetworkService.socket (net st')
    = Some (NetworkService.mkWebSocket NetworkService.OPEN
              (NetworkService.sent (NetworkService.mkWebSocket NetworkService.OPEN [])
               ++ [text])%list) /\
    NetworkService.stringify reportWriter
      (NetworkService.mkMessage type payload
         (NetworkService.toISOString reportWriter (snd read))
         (option_map NetworkService.deviceId
            (NetworkService.deviceInfo (net coldBridge))))
    = Js.Returned text /\
    (SMSService.success result = true ->
     type = "sms-sent" /\ payload = SentData (messageId order) (fst read)) /\
    (SMSService.success result = false ->
     type = "sms-failed" /\
     (forall reason,
         SMSService.error result = Some reason ->
         reason <> "" ->
         payload = FailedData (messageId order) ("Error: " ++ reason) (fst read)) /\
     (SMSService.error result = None \/ SMSService.error result = Some "" ->
      payload
      = FailedData (messageId order) "Error: SMS sending failed" (fst read))).
Proof.
  apply (handleSendSMSRequest_reports_once nat SendFacts.flakyPhone reportWriter
           (fun _ => "10:00:00") laterClock order coldBridge
           (NetworkService.mkWebSocket NetworkService.OPEN [])).
  - reflexivity.
  - reflexivity.
  - intros m. eexists. reflexivity.
  - reflexivity.
Defined.

(** The request on the cold bridge, run: the send is rejected, and the
    one text on the socket carries the reason of the rejection, the time
    the handler read and the later time read by [send]; both lines of
    [console.error] are there. *)
Example handleSendSMSRequest_cold :
  let st' :=
    handleSendSMSRequest nat SendFacts.flakyPhone reportWriter (fun _ => "10:00:00")
      laterClock order coldBridge in
  NetworkService.socket (net st')
  = Some (NetworkService.mkWebSocket NetworkService.OPEN
            ["sms-failed m1 Error: No service T1 T11"]) /\
  console st'
  = [NetworkService.ConsoleError "SMS sending failed:" (Js.newError "No service");
     NetworkService.ConsoleError "SMS sending failed:" (Js.newError "No service")].
Proof. split; reflexivity. Qed.

Lemma handleSendSMSRequest_unreported_when_closed_witness :
  let sent :=
    snd (SMSService.sendSMS nat SendFacts.flakyPhone (to order) (message order)
           (sms closedBridge)) in
  let st' :=
    handleSendSMSRequest nat SendFacts.flakyPhone reportWriter (fun _ => "10:00:00")
      laterClock order closedBridge in
  net st' = net closedBridge /\
  sms st'
  = SMSService.mkState (snd (laterClock (SMSService.world sent)))
      (SMSService.calls sent).
Proof.
  apply (handleSendSMSRequest_unreported_when_closed nat SendFacts.flakyPhone
           reportWriter (fun _ => "10:00:00") laterClock order closedBridge).
  left. reflexivity.
Defined.

End BridgeServiceFacts.

(** ** More on the campaign builder: the contact file and the submission *)

Module CampaignMore.
Import CampaignBuilder.

(** [s.split(sep)] for a separator of one character. *)
Fixpoint split (sep : ascii) (s : string) : list string :=
  match s with
  | EmptyString => [EmptyString]
  | String c s' =>
      if Ascii.eqb c sep then EmptyString :: split sep s'
      else
        match split sep s' with
        | [] => [String c EmptyString]
        | first :: rest => String c first :: rest
        end
  end.

Definition toLowerChar (c : ascii) : ascii :=
  if isUpper c then ascii_of_nat (nat_of_ascii c + 32) else c.

(** [s.toLowerCase()], on headers written in ASCII. *)
Fixpoint toLowerCase (s : string) : string :=
  match s with
  | EmptyString => EmptyString
  | String c s' => String (toLowerChar c) (toLowerCase s')
  end.

Definition newline : ascii := ascii_of_nat 10.
Definition comma : ascii := ","%char.

(** [contact[key]] *)
Fixpoint getKey (key : string) (contact : Contact) : option string :=
  match contact with
  | [] => None
  | (k, v) :: rest => if String.eqb k key then Some v else getKey key rest
  end.

(** [contact[key] = value]: an own key keeps its place, a new key goes to
    the end (keys that are whole numbers, which JavaScript lists first,
    apart). *)
Fixpoint setKey (key value : string) (contact : Contact) : Contact :=
  match contact with
  | [] => [(key, value)]
  | (k, v) :: rest =>
      if String.eqb k key then (k, value) :: rest
      else (k, v) :: setKey key value rest
  end.

(** The class [[\d\s\-\(\)]] of the phone check. *)
Definition isPhoneChar (c : ascii) : bool :=
  Js.isDigit c || Js.isWhiteSpace c
  || Ascii.eqb c "-"%char || Ascii.eqb c "("%char || Ascii.eqb c ")"%char.

(** [/^\+?[\d\s\-\(\)]+$/.test(phone)]: the plus sign is not in the
    class, so a leading one is the optional one. *)
Definition phoneLooksValid (phone : string) : bool :=
  match phone with
  | String "+"%char rest => Js.truthy rest && Js.forallb isPhoneChar rest
  | _ => Js.truthy phone && Js.forallb isPhoneChar phone
  end.

Definition isPhoneHeader (header : string) : bool :=
  Js.includes (toLowerCase header) "phone" || Js.includes (toLowerCase header) "number".

Definition isNameHeader (header : string) : bool :=
  Js.includes (toLowerCase header) "name".

(** The body of [headers.forEach]: [values[index]] is there for every
    header, as the row has at least as many values as there are headers. *)
Definition storeValue (contact : Contact) (header value : string) : Contact :=
  let value := Js.trim value in
  if isPhoneHeader header then setKey "phone" value contact
  else if isNameHeader header then setKey "name" value contact
  else setKey header value contact.

Fixpoint storeValues (contact : Contact) (headers values : list string) : Contact :=
  match headers, values with
  | header :: headers', value :: values' =>
      storeValues (storeValue contact header value) headers' values'
  | _, _ => contact
  end.

Definition headersOf (content : string) : list string :=
  map Js.trim (split comma (hd EmptyString (split newline content))).

(** One line of the file after the first: the contact it gives, if any. *)
Definition parseLine (headers : list string) (line : string) : option Contact :=
  let values := split comma line in
  if (List.length headers <=? List.length values)
     && Js.truthy (Js.trim (hd EmptyString values))
  then
    let contact := storeValues [("phone", "")] headers values in
    match getKey "phone" contact with
    | Some phone =>
        if Js.truthy phone && phoneLooksValid phone then Some contact else None
    | None => None
    end
  else None.

Fixpoint parseLines (headers : list string) (lines : list string) : list Contact :=
  match lines with
  | [] => []
  | line :: rest =>
      match parseLine headers line with
      | Some contact => contact :: parseLines headers rest
      | None => parseLines headers rest
      end
  end.

(** The contacts [parseCSVFile] stores from the content of the file. *)
Definition parseCSVFile (content : string) : list Contact :=
  parseLines (headersOf content) (tl (split newline content)).

(** ['round-robin' | 'weighted' | 'single-device'] *)
Inductive Distribution : Type := RoundRobin | Weighted | SingleDevice.

Record Schedule : Type := mkSchedule {
  startTime : string;
  messagesPerMinute : nat;
  distribution : Distribution
}.

(** [interface Campaign] *)
Record Campaign : Type := mkCampaign {
  name : string;
  message : string;
  contacts : list Contact;
  schedule : Schedule
}.

(** The state of the component. *)
Record Builder : Type := mkBuilder {
  campaign : Campaign;
  currentStep : nat;
  contactsFile : option string;
  previewMessage : string;
  isLoading : bool;
  error : option string
}.

Definition emptyCampaign : Campaign :=
  mkCampaign "" "" [] (mkSchedule "" 10 RoundRobin).

Definition validateCampaign (c : Campaign) : option string :=
  if negb (Js.truthy (Js.trim (name c))) then Some "Campaign name is required"
  else if negb (Js.truthy (Js.trim (message c))) then Some "Message is required"
  else if (List.length (contacts c) =? 0) then Some "At least one contact is required"
  else if negb (Js.truthy (startTime (schedule c))) then Some "Start time is required"
  else None.

(** What [fetch('/api/campaigns', ...)] resolves with: a response that is
    [ok], or one that is not, with what [response.json()] gives for its
    [error] property. *)
Inductive Response : Type :=
| ResponseOk
| ResponseNotOk (errorData : Js.Completion (option string)).

(** [err instanceof Error ? err.message : 'Unknown error'] *)
Definition messageOf (err : Js.Thrown) : string :=
  match err with
  | Js.ErrorObject _ text => text
  | Js.StringValue _ => "Unknown error"
  end.

Section Builder.

Variable World : Type.
Variable postCampaign : Campaign -> World -> Js.Completion Response * World.

Definition failed (st : Builder) (err : Js.Thrown) : Builder :=
  mkBuilder (campaign st) (currentStep st) (contactsFile st) (previewMessage st)
    false (Some (messageOf err)).

(** [createCampaign()]: the state after it, the world and the campaigns
    it posted. *)
Definition createCampaign (st : Builder) (w : World)
  : Builder * World * list Campaign :=
  match validateCampaign (campaign st) with
  | Some reason =>
      (mkBuilder (campaign st) (currentStep st) (contactsFile st)
         (previewMessage st) (isLoading st) (Some reason), w, [])
  | None =>
      match postCampaign (campaign st) w with
      | (Js.Threw err, w') => (failed st err, w', [campaign st])
      | (Js.Returned ResponseOk, w') =>
          (mkBuilder emptyCampaign 1 None "" false None, w', [campaign st])
      | (Js.Returned (ResponseNotOk (Js.Threw err)), w') =>
          (failed st err, w', [campaign st])
      | (Js.Returned (ResponseNotOk (Js.Returned reason)), w') =>
          (failed st
             (Js.newError
                (match reason with
                 | Some text => if Js.truthy text then text else "Failed to create campaign"
                 | None => "Failed to create campaign"
                 end)),
           w', [campaign st])
      end
  end.

End Builder.

End CampaignMore.

(** ** Facts about the contact file and the submission *)

Module CampaignMoreFacts.
Import CampaignBuilder CampaignMore.

Example parseCSVFile_sample :
  parseCSVFile
    (Js.join ["phone,name,city"; String newline "";
              "+1 555 1234, Ada ,Paris"; String newline "";
              "not a number,Bob,Rome"; String newline "";
              "5556789,Eve"])
  = [[("phone", "+1 555 1234"); ("name", "Ada"); ("city", "Paris")]].
Proof. reflexivity. Qed.

(** A contact as [parseCSVFile] stores it: it has a phone, not empty,
    that passes the phone check. *)
Definition hasValidPhone (contact : Contact) : Prop :=
  exists phone,
    getKey "phone" contact = Some phone /\
    phone <> "" /\
    phoneLooksValid phone = true.

Lemma parseLine_valid (headers : list string) (line : string) (contact : Contact) :
  parseLine headers line = Some contact -> hasValidPhone contact.
Proof.
  unfold parseLine. destruct (_ && _); [|discriminate].
  destruct (getKey "phone" _) as [phone|] eqn:Hphone; [|discriminate].
  destruct (Js.truthy phone && phoneLooksValid phone) eqn:Hcheck; [|discriminate].
  intros H. injection H as <-. exists phone.
  apply andb_prop in Hcheck. destruct Hcheck as [Htruthy Hvalid].
  repeat split; auto. intros ->. discriminate.
Qed.

Lemma parseLines_valid (headers lines : list string) :
  Forall hasValidPhone (parseLines headers lines) /\
  List.length (parseLines headers lines) <= List.length lines.
Proof.
  induction lines as [|line rest [IHvalid IHlen]]; cbn [parseLines List.length].
  - split; [constructor|lia].
  - destruct (parseLine headers line) as [contact|] eqn:Hline.
    + split; [|cbn [List.length]; lia].
      constructor; [|exact IHvalid]. eapply parseLine_valid; eauto.
    + split; [exact IHvalid|lia].
Qed.

(** X24. Every contact that [parseCSVFile] stores has a phone number that
    is not empty and passes the phone check, and no more contacts are
    stored than the file has lines after the header line. *)
Theorem parseCSVFile_stores_valid_phones (content : string) :
  Forall hasValidPhone (parseCSVFile content) /\
  List.length (parseCSVFile content)
  <= List.length (split newline content) - 1.
Proof.
  unfold parseCSVFile.
  destruct (parseLines_valid (headersOf content) (tl (split newline content)))
    as [Hvalid Hlen].
  split; [exact Hvalid|].
  destruct (split newline content); cbn [tl List.length] in *; lia.
Qed.

Lemma getKey_setKey_other (key k v : string) (contact : Contact) :
  k <> key -> getKey key (setKey k v contact) = getKey key contact.
Proof.
  intros Hne. induction contact as [|[k0 v0] rest IH]; cbn [setKey getKey].
  - destruct (String.eqb_spec k key); [contradiction|reflexivity].
  - destruct (String.eqb_spec k0 k) as [->|Hk0]; cbn [getKey].
    + destruct (String.eqb_spec k key); [contradiction|reflexivity].
    + now rewrite IH.
Qed.

Lemma storeValue_keeps_phone (contact : Contact) (header value : string) :
  isPhoneHeader header = false ->
  getKey "phone" (storeValue contact header value) = getKey "phone" contact.
Proof.
  intros Hheader. unfold storeValue. rewrite Hheader.
  destruct (isNameHeader header).
  - apply getKey_setKey_other. discriminate.
  - apply getKey_setKey_other. intros ->. discriminate.
Qed.

Lemma storeValues_keeps_phone (headers values : list string) :
  Forall (fun header => isPhoneHeader header = false) headers ->
  forall contact,
    getKey "phone" (storeValues contact headers values) = getKey "phone" contact.
Proof.
  intros Hheaders. revert values.
  induction Hheaders as [|header headers Hheader _ IH]; intros values contact;
    [reflexivity|].
  destruct values as [|value values]; [reflexivity|].
  cbn [storeValues]. rewrite IH. now apply storeValue_keeps_phone.
Qed.

(** X25. A file whose header line has no column with [phone] or [number]
    in its name gives no contact at all, whatever its rows hold. *)
Theorem parseCSVFile_needs_phone_column (content : string) :
  Forall (fun header => isPhoneHeader header = false) (headersOf content) ->
  parseCSVFile content = [].
Proof.
  intros Hheaders. unfold parseCSVFile.
  induction (tl (split newline content)) as [|line rest IH]; [reflexivity|].
  cbn [parseLines]. unfold parseLine at 1.
  destruct (_ && _); [|exact IH].
  rewrite (storeValues_keeps_phone _ _ Hheaders). cbn. exact IH.
Qed.

Lemma parseCSVFile_needs_phone_column_witness :
  parseCSVFile (Js.join ["name,city"; String newline ""; "Ada,+15551234567"]) = [].
Proof.
  apply (parseCSVFile_needs_phone_column
           (Js.join ["name,city"; String newline ""; "Ada,+15551234567"])).
  repeat constructor.
Defined.

Section Builder.

Variable World : Type.
Variable postCampaign : Campaign -> World -> Js.Completion Response * World.

(** X26. [createCampaign] posts a campaign only when it has a name and a
    message that are not blank, at least one contact and a start time.
    Otherwise it posts nothing and only sets the error.  After a post the
    builder is no longer loading, and it is either reset to an empty
    campaign at step 1, or keeps the campaign and its step and shows an
    error. *)
Theorem createCampaign_posts_only_valid (st : Builder) (w : World) :
  let st' := fst (fst (createCampaign World postCampaign st w)) in
  let posted := snd (createCampaign World postCampaign st w) in
  (posted = [] /\
   exists reason,
     st' = mkBuilder (campaign st) (currentStep st) (contactsFile st)
             (previewMessage st) (isLoading st) (Some reason))
  \/
  (posted = [campaign st] /\
   Js.trim (name (campaign st)) <> "" /\
   Js.trim (message (campaign st)) <> "" /\
   contacts (campaign st) <> [] /\
   startTime (schedule (campaign st)) <> "" /\
   isLoading st' = false /\
   (st' = mkBuilder emptyCampaign 1 None "" false None \/
    (campaign st' = campaign st /\ currentStep st' = currentStep st /\
     exists reason, error st' = Some reason))).
Proof.
  cbn zeta. unfold createCampaign.
  destruct (validateCampaign (campaign st)) as [reason|] eqn:Hvalid;
    [left; cbn; eauto|].
  right. unfold validateCampaign in Hvalid.
  destruct (Js.trim (name (campaign st))) eqn:Hname; [discriminate|].
  destruct (Js.trim (message (campaign st))) eqn:Hmessage; [discriminate|].
  destruct (contacts (campaign st)) eqn:Hcontacts; [discriminate|].
  destruct (startTime (schedule (campaign st))) eqn:Hstart; [discriminate|].
  destruct (postCampaign (campaign st) w) as [[[|[reason|err]]|err] w'];
    cbn [fst snd failed isLoading campaign currentStep error];
    repeat split; try discriminate; eauto.
Qed.

End Builder.

End CampaignMoreFacts.

(** ** The native module behind [SMSService]: [SMSManagerModule.sendSMS] *)

Module SMSManagerModule.

(** What reaches the radio: [sendTextMessage] with one text, or
    [sendMultipartTextMessage] with the parts of [divideMessage]. *)
Inductive Submission : Type :=
| SingleText (phoneNumber text : string)
| Multipart (phoneNumber : string) (parts : list string).

(** The phone under the module: whether [SEND_SMS] is granted, the
    platform's [divideMessage], the message of the exception with which
    the platform refuses a number and a text, if it does, the identifiers
    that [UUID.randomUUID()] gives one after the other and how many of
    them were drawn, the clock, and what was handed to the radio so far. *)
Record Phone : Type := mkPhone {
  hasSMSPermission : bool;
  divideMessage : string -> list string;
  radioRefuses : string -> string -> option string;
  randomUUID : nat -> string;
  drawn : nat;
  clock : nat;
  submissions : list Submission
}.

Definition draw (p : Phone) : Phone :=
  mkPhone (hasSMSPermission p) (divideMessage p) (radioRefuses p) (randomUUID p)
    (drawn p + 1) (clock p) (submissions p).

Definition submit (p : Phone) (s : Submission) : Phone :=
  mkPhone (hasSMSPermission p) (divideMessage p) (radioRefuses p) (randomUUID p)
    (drawn p) (clock p) (submissions p ++ [s]).

(** [promise.reject(code, message)] as it arrives in the [catch] of the
    caller: an error object with that message. *)
Definition reject (code text : string) : SMSService.NativeOutcome :=
  SMSService.Rejected (Js.newError text).

(** [sendSMS(phoneNumber, message, promise)] *)
Definition sendSMS (phoneNumber message : string) (p : Phone)
  : SMSService.NativeOutcome * Phone :=
  if negb (hasSMSPermission p)
  then (reject "PERMISSION_DENIED" "SMS permission not granted", p)
  else
    let messageId := randomUUID p (drawn p) in
    let p := draw p in
    match radioRefuses p phoneNumber message with
    | Some text => (reject "SMS_SEND_FAILED" text, p)
    | None =>
        if 160 <? length message
        then (SMSService.Resolved (Some messageId),
              submit p (Multipart phoneNumber (divideMessage p message)))
        else (SMSService.Resolved (Some messageId),
              submit p (SingleText phoneNumber message))
    end.

Definition later (ms : nat) (p : Phone) : Phone :=
  mkPhone (hasSMSPermission p) (divideMessage p) (radioRefuses p) (randomUUID p)
    (drawn p) (clock p + ms) (submissions p).

(** [SMSService] on Android, with this module as its native module. *)
Definition onAndroid : SMSService.Platform Phone :=
  SMSService.mkPlatform Phone (Some sendSMS) clock later.

End SMSManagerModule.

(** ** Facts about [SMSService] on top of its native module *)

Module AndroidFacts.
Import SMSManagerModule.

Definition noWhiteSpace (s : string) : bool :=
  Js.forallb (fun c => negb (Js.isWhiteSpace c)) s.

Lemma trimEnd_keeps (x part : string) :
  part <> "" ->
  noWhiteSpace part = true ->
  Js.trimEnd (x ++ part) = x ++ part.
Proof.
  intros Hpart Hclean.
  assert (Hbase : Js.trimEnd part = part).
  { clear Hpart. induction part as [|c part IH]; [reflexivity|].
    cbn [noWhiteSpace Js.forallb] in Hclean. apply andb_prop in Hclean.
    destruct Hclean as [Hc Hrest]. apply negb_true_iff in Hc.
    cbn [Js.trimEnd]. rewrite (IH Hrest), Hc. now destruct part. }
  induction x as [|c x IH]; [exact Hbase|].
  change (String c x ++ part) with (String c (x ++ part)).
  cbn [Js.trimEnd]. rewrite IH.
  destruct (x ++ part) eqn:E; [|reflexivity].
  destruct x; [|discriminate]. simpl in E. contradiction.
Qed.

(** A label in front of a part without white space is not trimmed. *)
Lemma trim_partMessage (total i : nat) (part : string) :
  1 < total ->
  part <> "" ->
  noWhiteSpace part = true ->
  Js.trim (SMSService.partMessage total i part) = SMSService.partMessage total i part.
Proof.
  intros Htotal Hpart Hclean. unfold SMSService.partMessage.
  destruct (Nat.ltb_spec 1 total) as [_|]; [|lia].
  unfold Js.trim.
  change (Js.trimStart ("(" ++ Js.ofNat (i + 1) ++ "/" ++ Js.ofNat total ++ ") " ++ part))
    with ("(" ++ Js.ofNat (i + 1) ++ "/" ++ Js.ofNat total ++ ") " ++ part).
  replace ("(" ++ Js.ofNat (i + 1) ++ "/" ++ Js.ofNat total ++ ") " ++ part)
    with (("(" ++ Js.ofNat (i + 1) ++ "/" ++ Js.ofNat total ++ ") ") ++ part)
    by (now rewrite !Js.append_assoc).
  now apply trimEnd_keeps.
Qed.

(** No send takes back what was handed to the radio. *)
Lemma sendSMS_submissions_grow (phoneNumber message : string)
  (st : SMSService.State Phone) :
  exists more,
    submissions (SMSService.world
                   (snd (SMSService.sendSMS Phone onAndroid phoneNumber message st)))
    = (submissions (SMSService.world st) ++ more)%list.
Proof.
  unfold SMSService.sendSMS. cbn [onAndroid SMSService.nativeModule].
  destruct (SMSService.isValidPhoneNumber _); cbn [negb];
    [|exists []; cbn; now rewrite app_nil_r].
  destruct (negb (Js.truthy message) || _);
    [exists []; cbn; now rewrite app_nil_r|].
  unfold sendSMS. destruct (hasSMSPermission (SMSService.world st)); cbn [negb];
    [|exists []; cbn; now rewrite app_nil_r].
  destruct (radioRefuses _ _ _); [exists []; cbn; now rewrite app_nil_r|].
  destruct (160 <? length (Js.trim message)); eexists; cbn; reflexivity.
Qed.

Lemma sendParts_submissions_grow (phoneNumber : string) (total : nat)
  (parts : list string) :
  forall i results st,
  exists more,
    submissions (SMSService.world
                   (snd (SMSService.sendParts Phone onAndroid phoneNumber total i
                           parts results st)))
    = (submissions (SMSService.world st) ++ more)%list.
Proof.
  induction parts as [|part rest IH]; intros i results st; cbn [SMSService.sendParts].
  - exists []. cbn. now rewrite app_nil_r.
  - destruct (sendSMS_submissions_grow phoneNumber
                (SMSService.partMessage total i part) st) as [first Hfirst].
    destruct (SMSService.sendSMS Phone onAndroid phoneNumber _ st) as [result st1].
    cbn [snd] in Hfirst.
    match goal with
    | |- context [SMSService.sendParts _ _ _ _ _ _ _ ?s] =>
        destruct (IH (i + 1) (results ++ [result])%list s) as [later Hlater];
        assert (Hs : submissions (SMSService.world s)
                     = submissions (SMSService.world st1))
          by (destruct (i <? total - 1); reflexivity)
    end.
    exists (first ++ later)%list. rewrite Hlater, Hs, Hfirst, <- app_assoc.
    reflexivity.
Qed.

(** X27. Without the [SEND_SMS] permission every message that passes the
    checks of [sendSMS] fails with the text of the rejection, and nothing
    is handed to the radio. *)
Theorem sendSMS_without_permission (phoneNumber message : string)
  (st : SMSService.State Phone) :
  hasSMSPermission (SMSService.world st) = false ->
  SMSService.isValidPhoneNumber (SMSService.cleanPhoneNumber phoneNumber) = true ->
  Js.trim message <> "" ->
  fst (SMSService.sendSMS Phone onAndroid phoneNumber message st)
  = SMSService.failure "SMS permission not granted" /\
  submissions (SMSService.world
                 (snd (SMSService.sendSMS Phone onAndroid phoneNumber message st)))
  = submissions (SMSService.world st).
Proof.
  intros Hdenied Hvalid Hbody. unfold SMSService.sendSMS.
  cbn [onAndroid SMSService.nativeModule]. rewrite Hvalid. cbn [negb].
  assert (Hcheck : negb (Js.truthy message) || (length (Js.trim message) =? 0) = false).
  { destruct message as [|c message]; [contradiction Hbody; reflexivity|].
    destruct (Js.trim (String c message)); [contradiction Hbody; reflexivity|].
    reflexivity. }
  rewrite Hcheck. unfold sendSMS. rewrite Hdenied. cbn. split; reflexivity.
Qed.

(** X28. The parts of a long message are split a second time.  For a
    message of more than 160 characters without white space, sent to a
    valid number on a phone that has the permission and whose radio
    refuses nothing, the first text that [sendLongSMS] hands over has at
    least 166 characters, and the native module passes it to the radio as
    a multipart message, divided again. *)
Theorem sendLongSMS_parts_are_divided_again (phoneNumber message : string)
  (st : SMSService.State Phone) :
  hasSMSPermission (SMSService.world st) = true ->
  (forall number text, radioRefuses (SMSService.world st) number text = None) ->
  SMSService.isValidPhoneNumber (SMSService.cleanPhoneNumber phoneNumber) = true ->
  160 < length message ->
  noWhiteSpace message = true ->
  exists results st' text more,
    SMSService.sendLongSMS Phone onAndroid phoneNumber message st
    = Some (results, st') /\
    166 <= length text /\
    submissions (SMSService.world st')
    = (submissions (SMSService.world st)
       ++ Multipart (SMSService.cleanPhoneNumber phoneNumber)
            (divideMessage (SMSService.world st) text) :: more)%list.
Proof.
  intros Hgranted Hradio Hvalid Hlong Hclean.
  destruct (ServiceMore.splitLongMessage_first_full message Hlong)
    as (first & rest & Hsplit & Hfirst & Hparts & Hjoin).
  assert (Hfirst_clean : noWhiteSpace first = true).
  { unfold noWhiteSpace in *. rewrite <- Hjoin in Hclean. cbn [Js.join fold_right] in Hclean.
    rewrite JsFacts.forallb_append in Hclean. now apply andb_prop in Hclean. }
  assert (Hfirst_ne : first <> "") by (intros ->; discriminate).
  set (total := List.length (first :: rest)) in *.
  set (text := SMSService.partMessage total 0 first).
  pose proof (trim_partMessage total 0 first Hparts Hfirst_ne Hfirst_clean) as Htrim.
  pose proof (ServiceMore.partMessage_longer total 0 first Hparts) as Hlength.
  pose proof (SendFacts.partMessage_not_blank total 0 first Hparts) as Hbody.
  unfold SMSService.sendLongSMS. rewrite Hsplit. fold total.
  cbn [SMSService.sendParts]. fold text.
  assert (Hsend : exists result st1,
             SMSService.sendSMS Phone onAndroid phoneNumber text st = (result, st1) /\
             submissions (SMSService.world st1)
             = (submissions (SMSService.world st)
                ++ [Multipart (SMSService.cleanPhoneNumber phoneNumber)
                      (divideMessage (SMSService.world st) text)])%list).
  { unfold SMSService.sendSMS. cbn [onAndroid SMSService.nativeModule].
    rewrite Hvalid. cbn [negb]. fold text in Hbody. rewrite Hbody.
    fold text in Htrim. rewrite Htrim. unfold sendSMS.
    rewrite Hgranted. cbn [negb].
    change (radioRefuses (draw (SMSService.world st)))
      with (radioRefuses (SMSService.world st)).
    rewrite Hradio.
    destruct (Nat.ltb_spec 160 (length text)) as [_|Hshort];
      [|subst text; lia].
    eexists. eexists. split; reflexivity. }
  destruct Hsend as (result & st1 & -> & Hfirst_sent).
  match goal with
  | |- context [SMSService.sendParts _ _ _ _ _ _ _ ?s] =>
      destruct (sendParts_submissions_grow phoneNumber total rest (0 + 1)
                  ([] ++ [result])%list s) as [more Hmore];
      assert (Hs : submissions (SMSService.world s)
                   = submissions (SMSService.world st1))
        by (destruct (0 <? total - 1); reflexivity);
      destruct (SMSService.sendParts Phone onAndroid phoneNumber total (0 + 1) rest
                  ([] ++ [result])%list s) as [results st'] eqn:Hrun
  end.
  exists results, st', text, more. split; [reflexivity|]. split; [subst text; lia|].
  cbn [snd] in Hmore. rewrite Hmore, Hs, Hfirst_sent, <- app_assoc. reflexivity.
Qed.

(** A phone with the permission and a radio that takes everything; its
    [divideMessage] cuts at 153 characters. *)
Definition readyPhone : Phone :=
  mkPhone true (fun text => [Js.take 153 text; Js.drop 153 text])
    (fun _ _ => None) (fun n => "uuid-" ++ Js.ofNat n) 0 0 [].

Definition lockedPhone : Phone :=
  mkPhone false (fun text => [text]) (fun _ _ => None)
    (fun n => "uuid-" ++ Js.ofNat n) 0 0 [].

Lemma sendSMS_without_permission_witness :
  fst (SMSService.sendSMS Phone onAndroid "+15551234567" "On its way"
         (SMSService.mkState lockedPhone []))
  = SMSService.failure "SMS permission not granted" /\
  submissions (SMSService.world
                 (snd (SMSService.sendSMS Phone onAndroid "+15551234567" "On its way"
                         (SMSService.mkState lockedPhone []))))
  = submissions (SMSService.world (SMSService.mkState lockedPhone [])).
Proof.
  apply (sendSMS_without_permission "+15551234567" "On its way"
           (SMSService.mkState lockedPhone [])).
  - reflexivity.
  - reflexivity.
  - discriminate.
Defined.

Lemma sendLongSMS_parts_are_divided_again_witness :
  exists results st' text more,
    SMSService.sendLongSMS Phone onAndroid "+15551234567" (Js.repeat "a" 200)
      (SMSService.mkState readyPhone [])
    = Some (results, st') /\
    166 <= length text /\
    submissions (SMSService.world st')
    = (submissions (SMSService.world (SMSService.mkState readyPhone []))
       ++ Multipart (SMSService.cleanPhoneNumber "+15551234567")
            (divideMessage (SMSService.world (SMSService.mkState readyPhone [])) text)
          :: more)%list.
Proof.
  apply (sendLongSMS_parts_are_divided_again "+15551234567" (Js.repeat "a" 200)
           (SMSService.mkState readyPhone [])).
  - reflexivity.
  - reflexivity.
  - reflexivity.
  - apply Nat.ltb_lt. reflexivity.
  - reflexivity.
Defined.

End AndroidFacts.
